(** * AI Tycoon: market simulation, online demand model and plan search

    A shallow embedding of [ai.Tycoon.cpp]: the event generator [drawEvent],
    the advisor [AIAdvisor] ([predict], [learn], [suggest]), the market
    ([drift], [realizeDemand]) and the body of the game loop of [main].

    Conventions of the embedding:
    - a C++ [double] is an element of [R]: arithmetic is exact, there is no
      rounding, no infinity and no NaN (the templates [std::max], [std::min]
      and [clampv], which decide what such values become, are also
      instantiated on binary64 values);
    - a C++ [int] is an element of [Z]; the quantities of the game (stock,
      production, sales) stay far from the 32-bit limits, and where a
      statement ranges over values beyond them the conversion [(int)] of a
      double is written out ([int_of_double], [realizeDemand_int]);
    - [log1p x] is [ln (1 + x)];
    - the global generator [rng] is left out: a function that draws from it
      takes the variate it obtains (a standard normal one, or a uniform one
      of [0, 1)) as an explicit argument, and the distribution object scales
      and shifts that variate;
    - console output is left out, and a line typed by the player is taken
      after [stod]/[stoi] parsed it ([PlayerInput]); the lines on which they
      throw, which end the program, are those of [TypedInput] and [play]. *)

From Stdlib Require Import Reals Lra Lia ZArith List Sorted String Bool Floats.
Import ListNotations.
Open Scope R_scope.

(** ** Utilities *)

(** The comparison [<] that the templates [std::max], [std::min] and [clampv]
    are instantiated with. *)
Class Less (T : Type) : Type := {
  less : T -> T -> Prop;
  less_dec : forall a b : T, {less a b} + {~ less a b}
}.

#[export] Instance Less_double : Less R := {| less := Rlt; less_dec := Rlt_dec |}.
#[export] Instance Less_int : Less Z := {| less := Z.lt; less_dec := Z_lt_dec |}.

(** The same comparison on IEEE 754 binary64 values, to follow the templates
    on the values that [R] does not have: NaN and the two infinities. *)
#[export] Instance Less_binary64 : Less float := {|
  less := fun a b => PrimFloat.ltb a b = true;
  less_dec := fun a b => bool_dec (PrimFloat.ltb a b) true
|}.

(** [std::max(a, b)] is [(a < b) ? b : a]; [std::min(a, b)] is
    [(b < a) ? b : a]. *)
Definition std_max {T : Type} `{Less T} (a b : T) : T :=
  if less_dec a b then b else a.
Definition std_min {T : Type} `{Less T} (a b : T) : T :=
  if less_dec b a then b else a.

(** [template<class T> T clampv(T v, T lo, T hi)]. *)
Definition clampv {T : Type} `{Less T} (v lo hi : T) : T :=
  std_max lo (std_min hi v).

(** [log1p] of <cmath>, for [x > -1]. *)
Definition log1p (x : R) : R := ln (1 + x).

(** A draw of [std::normal_distribution<double>(mean, stddev)], from the
    standard normal variate [z] that the generator yields. *)
Definition normal_distribution (mean stddev z : R) : R := z * stddev + mean.

(** A draw of [std::uniform_real_distribution<double>(a, b)], from the uniform
    variate [u] of [0, 1) that the generator yields. *)
Definition uniform_real_distribution (a b u : R) : R := u * (b - a) + a.

(** [round] of <cmath> followed by the cast to [int]: nearest integer, halves
    away from zero. The limits of [int] are not applied here; the statements
    that depend on them bound the value and use [int_of_double]. *)
Definition round_int (x : R) : Z :=
  if Rle_dec 0 x then Zfloor (x + / 2) else Zceil (x - / 2).

Record Plan : Type := mkPlan {
  price : R;
  adSpend : R;
  production : Z
}.

Record Snapshot : Type := mkSnapshot {
  snap_week : Z;
  snap_baseDemand : R;
  snap_eventBoost : R;
  snap_price : R;
  snap_adSpend : R;
  snap_production : Z;
  snap_sold : Z;
  snap_inventoryEnd : Z;
  snap_revenue : R;
  snap_cost : R;
  snap_profit : R
}.

(** ** Market events *)

Record MarketEvent : Type := mkEvent {
  name : string;
  baseShock : R;
  adShock : R;
  priceShock : R
}.

Definition viral_trend : MarketEvent := mkEvent "Viral Trend" 20 0.50 (-0.10).
Definition new_competitor : MarketEvent := mkEvent "New Competitor" (-15) (-0.10) 0.25.
Definition supply_news : MarketEvent := mkEvent "Supply News (positive)" 5 0.05 (-0.05).
Definition macro_slump : MarketEvent := mkEvent "Macro Slump" (-10) (-0.10) 0.15.
Definition nothing_special : MarketEvent := mkEvent "Nothing Special" 0 0 0.

Definition drawEvent (week : Z) (rng_u : R) : MarketEvent :=
  let r := uniform_real_distribution 0 1 rng_u in
  if Rlt_dec r 0.10 then viral_trend
  else if Rlt_dec r 0.20 then new_competitor
  else if Rlt_dec r 0.30 then supply_news
  else if Rlt_dec r 0.40 then macro_slump
  else nothing_special.

(** The five events of [drawEvent], in the order of its branches. *)
Definition events : list MarketEvent :=
  [viral_trend; new_competitor; supply_news; macro_slump; nothing_special].

(** ** Company *)

Record Company : Type := mkCompany {
  co_name : string;
  inventory : Z;
  cash : R;
  unitCost : R;
  fixedCost : R;
  history : list Snapshot
}.

Definition new_company : Company := mkCompany "YouCo" 40 20000 8 1200 [].

(** ** AI advisor *)

Record AIAdvisor : Type := mkAdvisor {
  w0 : R;
  wP : R;
  wA : R;
  wB : R;
  wI : R;
  lr : R
}.

(** The constructor [AIAdvisor::AIAdvisor()]. *)
Definition new_advisor : AIAdvisor := mkAdvisor 40 1 8 0.5 0.1 0.0015.

Definition predict (ai : AIAdvisor) (price ad baseProxy : R) (inventoryAvail : Z)
    (eventAdMult eventPriceMult : R) : R :=
  let x0 := 1 in
  let xP := - price * (1 + eventPriceMult) in
  let xA := log1p ad * (1 + eventAdMult) in
  let xB := baseProxy in
  let xI := IZR inventoryAvail in
  let yhat := w0 ai * x0 + wP ai * xP + wA ai * xA + wB ai * xB + wI ai * xI in
  std_max 0 yhat.

(** The arguments of one call of [learn]. *)
Record LearnCall : Type := mkLearnCall {
  l_price : R;
  l_ad : R;
  l_baseProxy : R;
  l_inventoryAvail : Z;
  l_sold : Z;
  l_eventAdMult : R;
  l_eventPriceMult : R
}.

(** The error [err] computed inside [learn]. *)
Definition learn_err (ai : AIAdvisor) (c : LearnCall) : R :=
  let x0 := 1 in
  let xP := - l_price c * (1 + l_eventPriceMult c) in
  let xA := log1p (l_ad c) * (1 + l_eventAdMult c) in
  let xB := l_baseProxy c in
  let xI := IZR (l_inventoryAvail c) in
  let yhat := w0 ai * x0 + wP ai * xP + wA ai * xA + wB ai * xB + wI ai * xI in
  IZR (l_sold c) - yhat.

Definition learn (ai : AIAdvisor) (c : LearnCall) : AIAdvisor :=
  let x0 := 1 in
  let xP := - l_price c * (1 + l_eventPriceMult c) in
  let xA := log1p (l_ad c) * (1 + l_eventAdMult c) in
  let xB := l_baseProxy c in
  let xI := IZR (l_inventoryAvail c) in
  let yhat := w0 ai * x0 + wP ai * xP + wA ai * xA + wB ai * xB + wI ai * xI in
  let err := IZR (l_sold c) - yhat in
  let w0' := w0 ai + lr ai * err * x0 in
  let wP' := wP ai + lr ai * err * xP in
  let wA' := wA ai + lr ai * err * xA in
  let wB' := wB ai + lr ai * err * xB in
  let wI' := wI ai + lr ai * err * xI in
  mkAdvisor (clampv w0' (-200) 300)
            (clampv wP' (-10) 10)
            (clampv wA' (-40) 40)
            (clampv wB' (-5) 5)
            (clampv wI' (-0.5) 0.5)
            (lr ai).

(** The advisor after each call of a sequence of calls of [learn], in order. *)
Fixpoint learn_trace (ai : AIAdvisor) (calls : list LearnCall) : list AIAdvisor :=
  match calls with
  | [] => []
  | c :: rest => let ai' := learn ai c in ai' :: learn_trace ai' rest
  end.

(** The clamp ranges of the five weights. *)
Definition weights_in_range (ai : AIAdvisor) : Prop :=
  -200 <= w0 ai <= 300 /\
  -10 <= wP ai <= 10 /\
  -40 <= wA ai <= 40 /\
  -5 <= wB ai <= 5 /\
  -0.5 <= wI ai <= 0.5.

(** The call [learn(20, 1000, 50, 60, 80, 0, 0)]. *)
Definition scenario_call : LearnCall := mkLearnCall 20 1000 50 60 80 0 0.

(** ** Plan search *)

(** [for (double x = lo; x <= hi; x += step) body], run for at most [fuel]
    iterations. *)
Fixpoint for_double {St : Type} (fuel : nat) (x hi step : R) (body : R -> St -> St)
    (s : St) : St :=
  match fuel with
  | O => s
  | S fuel' =>
      if Rle_dec x hi then for_double fuel' (x + step) hi step body (body x s)
      else s
  end.

(** [for (int i = lo; i <= hi; i += step) body], run for at most [fuel]
    iterations. *)
Fixpoint for_int {St : Type} (fuel : nat) (i hi step : Z) (body : Z -> St -> St)
    (s : St) : St :=
  match fuel with
  | O => s
  | S fuel' =>
      if (i <=? hi)%Z then for_int fuel' (i + step)%Z hi step body (body i s)
      else s
  end.

(** The two variables [bestProfit] and [best] of [suggest]. *)
Record Search : Type := mkSearch {
  bestProfit : R;
  best : Plan
}.

Definition search_init : Search := mkSearch (-1e18) (mkPlan 20 1000 50).

(** The body of the innermost loop of [suggest]. *)
Definition evaluate (ai : AIAdvisor) (c : Company) (baseProxy eventAdMult eventPriceMult : R)
    (price ad : R) (prod : Z) (st : Search) : Search :=
  let demandHat :=
    predict ai price ad baseProxy (inventory c + prod) eventAdMult eventPriceMult in
  let canSell := std_min (round_int demandHat) (inventory c + prod)%Z in
  let revenue := IZR canSell * price in
  let cost := IZR prod * unitCost c + ad + fixedCost c in
  let profit := revenue - cost in
  if Rgt_dec profit (bestProfit st) then mkSearch profit (mkPlan price ad prod)
  else st.

Definition suggest_search (fuel : nat) (ai : AIAdvisor) (c : Company)
    (baseProxy eventAdMult eventPriceMult : R) : Search :=
  for_double fuel 9 40 1 (fun price =>
    for_double fuel 0 8000 500 (fun ad =>
      for_int fuel 0 120 10 (fun prod =>
        evaluate ai c baseProxy eventAdMult eventPriceMult price ad prod)))
    search_init.

(** Iterations granted to each loop of [suggest]; the longest one takes 32. *)
Definition suggest_fuel : nat := 64.

Definition suggest (ai : AIAdvisor) (c : Company)
    (baseProxy eventAdMult eventPriceMult : R) : Plan :=
  best (suggest_search suggest_fuel ai c baseProxy eventAdMult eventPriceMult).

(** The profit that [evaluate] computes at a grid point. *)
Definition predicted_profit (ai : AIAdvisor) (c : Company)
    (baseProxy eventAdMult eventPriceMult : R) (p : Plan) : R :=
  let avail := (inventory c + production p)%Z in
  let demandHat :=
    predict ai (price p) (adSpend p) baseProxy avail eventAdMult eventPriceMult in
  IZR (std_min (round_int demandHat) avail) * price p
  - (IZR (production p) * unitCost c + adSpend p + fixedCost c).

(** The values a loop variable takes: [n] values from [x] in steps of [step]. *)
Fixpoint range_double (x step : R) (n : nat) : list R :=
  match n with
  | O => []
  | S n' => x :: range_double (x + step) step n'
  end.

Fixpoint range_int (i step : Z) (n : nat) : list Z :=
  match n with
  | O => []
  | S n' => i :: range_int (i + step)%Z step n'
  end.

(** The grid of [suggest] in the order the three loops visit it. *)
Definition grid : list Plan :=
  flat_map (fun price =>
    flat_map (fun ad =>
      map (fun prod => mkPlan price ad prod) (range_int 0 10 13))
      (range_double 0 500 17))
    (range_double 9 1 32).

(** The bounds of the search grid of [suggest]. *)
Definition in_grid_bounds (p : Plan) : Prop :=
  9 <= price p <= 40 /\ 0 <= adSpend p <= 8000 /\ (0 <= production p <= 120)%Z.

(** [suggest] as one pass over a list of grid points. *)
Definition search_over (ai : AIAdvisor) (c : Company)
    (baseProxy eventAdMult eventPriceMult : R) (points : list Plan) : Search :=
  fold_left (fun st p =>
               evaluate ai c baseProxy eventAdMult eventPriceMult
                        (price p) (adSpend p) (production p) st)
            points search_init.

(** The order in which [suggest] visits the grid: price ascending, then ad
    spend ascending, then production ascending. *)
Definition plan_before (p q : Plan) : Prop :=
  price p < price q \/
  (price p = price q /\
   (adSpend p < adSpend q \/
    (adSpend p = adSpend q /\ (production p < production q)%Z))).

(** ** Market simulation *)

Record Market : Type := mkMarket {
  baseDemand : R;
  priceSensitivity : R;
  adEffect : R;
  demandDrift : R;
  noiseStd : R
}.

Definition new_market : Market := mkMarket 60 1.4 9 0.2 6.

Definition drift (m : Market) (rng_z : R) : Market :=
  let n := normal_distribution 0 0.8 in
  mkMarket (std_max 5 (baseDemand m + demandDrift m + n rng_z))
           (priceSensitivity m) (adEffect m) (demandDrift m) (noiseStd m).

(** The rounded demand as an integer. The limits of [int] are not applied
    here; [realizeDemand_int] writes the conversion out. *)
Definition realizeDemand (m : Market) (price adSpend : R) (ev : MarketEvent)
    (inventoryAvail : Z) (rng_z : R) : Z :=
  let priceMult := 1 + priceShock ev in
  let adMult := 1 + adShock ev in
  let mu := baseDemand m + baseShock ev
            - priceSensitivity m * price * priceMult
            + adEffect m * log1p adSpend * adMult
            + 0.08 * IZR inventoryAvail in
  let n := normal_distribution 0 (noiseStd m) in
  let demand := std_max 0 (mu + n rng_z) in
  Zfloor (demand + 0.5).

(** ** Game loop *)

(** What the player types in one week: an empty line or anything not starting
    with [n]/[N] accepts the plan; otherwise three lines follow, each empty
    ([None]) or a number. Lines on which [stod] or [stoi] throws are not
    among these; [TypedInput] and [play] have them. *)
Inductive PlayerInput : Type :=
| Accept
| Override (price_line ad_line : option R) (production_line : option Z).

Definition choose (plan : Plan) (inp : PlayerInput) : Plan :=
  match inp with
  | Accept => plan
  | Override p a q =>
      let chosen := plan in
      let chosen :=
        match p with
        | Some v => mkPlan (clampv v 9 40) (adSpend chosen) (production chosen)
        | None => chosen
        end in
      let chosen :=
        match a with
        | Some v => mkPlan (price chosen) (clampv v 0 10000) (production chosen)
        | None => chosen
        end in
      match q with
      | Some v => mkPlan (price chosen) (adSpend chosen) (clampv v 0%Z 200%Z)
      | None => chosen
      end
  end.

(** The four variates one week obtains from [rng], in the order of the calls:
    [drift], [drawEvent], [realizeDemand] and the update of the proxy. *)
Record Draws : Type := mkDraws {
  d_drift : R;
  d_event : R;
  d_demand : R;
  d_proxy : R
}.

Definition default_snapshot : Snapshot := mkSnapshot 0 0 0 0 0 0 0 0 0 0 0.

(** The update of [baseProxy] at the end of the loop body; [history] already
    holds the snapshot of the week. *)
Definition update_proxy (history : list Snapshot) (baseProxy rng_z : R) : R :=
  let size := Z.of_nat (List.length history) in
  let start := std_max 0%Z (size - 3)%Z in
  let avgSales :=
    fold_left (fun acc i => acc + IZR (snap_sold (nth i history default_snapshot)))
              (seq (Z.to_nat start) (Z.to_nat (size - start))) 0 in
  let avgSales := avgSales / IZR (size - start) in
  let n := normal_distribution 0 3.0 in
  std_max 0 (0.70 * baseProxy + 0.30 * avgSales + n rng_z).

Record Game : Type := mkGame {
  co : Company;
  mk : Market;
  ai : AIAdvisor;
  baseProxy : R
}.

Definition new_game : Game := mkGame new_company new_market new_advisor 50.

(** One run of the loop body: the state it leaves and what it passed to
    [realizeDemand] and to [learn]. *)
Record Week : Type := mkWeek {
  wk_ev : MarketEvent;
  wk_plan : Plan;
  wk_chosen : Plan;
  wk_realize_inventoryAvail : Z;
  wk_potential : Z;
  wk_sold : Z;
  wk_learn : LearnCall;
  wk_game : Game
}.

Definition week_body (week : Z) (g : Game) (inp : PlayerInput) (d : Draws) : Week :=
  let mk1 := drift (mk g) (d_drift d) in
  let ev := drawEvent week (d_event d) in
  let plan := suggest (ai g) (co g) (baseProxy g) (adShock ev) (priceShock ev) in
  let chosen := choose plan inp in
  let inventory1 := (inventory (co g) + production chosen)%Z in
  let potential :=
    realizeDemand mk1 (price chosen) (adSpend chosen) ev inventory1 (d_demand d) in
  let sold := std_min potential inventory1 in
  let inventory2 := (inventory1 - sold)%Z in
  let revenue := IZR sold * price chosen in
  let cost :=
    IZR (production chosen) * unitCost (co g) + adSpend chosen + fixedCost (co g) in
  let profit := revenue - cost in
  let cash1 := cash (co g) + profit in
  let snap :=
    mkSnapshot week (baseDemand mk1) (baseShock ev) (price chosen) (adSpend chosen)
               (production chosen) sold inventory2 revenue cost profit in
  let history1 := (history (co g) ++ [snap])%list in
  let co1 :=
    mkCompany (co_name (co g)) inventory2 cash1 (unitCost (co g)) (fixedCost (co g))
              history1 in
  let call :=
    mkLearnCall (price chosen) (adSpend chosen) (baseProxy g) (inventory2 + sold)
                sold (adShock ev) (priceShock ev) in
  let ai1 := learn (ai g) call in
  let baseProxy1 := update_proxy history1 (baseProxy g) (d_proxy d) in
  mkWeek ev plan chosen inventory1 potential sold call
         (mkGame co1 mk1 ai1 baseProxy1).

(** [for (int week = 1; week <= weeks; ++week)] with its early [break]: the
    weeks that were played, in order. *)
Fixpoint weeks_loop (fuel : nat) (week weeks : Z) (g : Game)
    (inputs : Z -> PlayerInput) (draws : Z -> Draws) : list Week :=
  match fuel with
  | O => []
  | S fuel' =>
      if (week <=? weeks)%Z then
        let w := week_body week g (inputs week) (draws week) in
        w :: (if Rlt_dec (cash (co (wk_game w))) (-5000) then []
              else weeks_loop fuel' (week + 1)%Z weeks (wk_game w) inputs draws)
      else []
  end.

Definition main (inputs : Z -> PlayerInput) (draws : Z -> Draws) : list Week :=
  weeks_loop 13 1 12 new_game inputs draws.

(** The availability handed to [learn] is the one handed to [realizeDemand],
    which is the stock left at the end of the week plus the units sold. *)
Definition learn_on_presale (w : Week) : Prop :=
  l_inventoryAvail (wk_learn w) = wk_realize_inventoryAvail w /\
  l_inventoryAvail (wk_learn w) = (inventory (co (wk_game w)) + wk_sold w)%Z.

(** ** Definitions that follow the wording of the specification *)

(** [predict] with the two event multipliers left out of the features. *)
Definition predict_no_shock (ai : AIAdvisor) (price ad baseProxy : R)
    (inventoryAvail : Z) : R :=
  Rmax 0 (w0 ai + wP ai * (- price) + wA ai * ln (1 + ad) + wB ai * baseProxy
          + wI ai * IZR inventoryAvail).

(** [realizeDemand] with the three shocks left out of the latent mean; [noise]
    is the Gaussian noise added to the mean. *)
Definition realizeDemand_no_shock (m : Market) (price adSpend : R)
    (inventoryAvail : Z) (noise : R) : Z :=
  let mu := baseDemand m - priceSensitivity m * price
            + adEffect m * ln (1 + adSpend) + 0.08 * IZR inventoryAvail in
  Zfloor (Rmax 0 (mu + noise) + 0.5).

(** The sale counts of the most recent up-to-3 snapshots, oldest first. *)
Definition recent_sales (history : list Snapshot) : list Z :=
  map snap_sold (skipn (List.length history - 3) history).

Definition sum_Z (l : list Z) : Z := fold_right Z.add 0%Z l.

Definition mean (l : list Z) : R := IZR (sum_Z l) / INR (List.length l).

(** ** Enclosing [exp] between fixed-point numbers *)

Definition sq (x : R) : R := x * x.

(** Fixed-point numbers with 18 decimals: [z] stands for [z / 10^18]. *)
Definition fx_one : Z := (10 ^ 18)%Z.

Definition fx (z : Z) : R := IZR z / IZR fx_one.

(** Square of a fixed-point number, rounded down. *)
Definition fx_sq (z : Z) : Z := (z * z / fx_one)%Z.

(** ** End of the game *)

(** The two totals of the post-game summary, [totalProfit] and [totalSales],
    accumulated over [co.history]. *)
Definition summary (c : Company) : R * Z :=
  fold_left (fun totals s =>
               (fst totals + snap_profit s, (snd totals + snap_sold s)%Z))
            (history c) (0, 0%Z).

Definition totalProfit (c : Company) : R := fst (summary c).
Definition totalSales (c : Company) : Z := snd (summary c).

(** The game when the loop of [main] is left. *)
Definition final_game (inputs : Z -> PlayerInput) (draws : Z -> Draws) : Game :=
  last (map wk_game (main inputs draws)) new_game.

Definition sum_R (l : list R) : R := fold_right Rplus 0 l.

(** The constants of the market that [drift] leaves alone, and the floor of
    the one it moves. *)
Definition market_ok (m : Market) : Prop :=
  5 <= baseDemand m /\ priceSensitivity m = 1.4 /\ adEffect m = 9 /\
  demandDrift m = 0.2 /\ noiseStd m = 6.

(** The ranges the finalized plan of a week is clamped to. *)
Definition in_player_bounds (p : Plan) : Prop :=
  9 <= price p <= 40 /\ 0 <= adSpend p <= 10000 /\ (0 <= production p <= 200)%Z.

(** What a recorded snapshot says of its own week. *)
Definition snapshot_ok (s : Snapshot) : Prop :=
  9 <= snap_price s <= 40 /\ 0 <= snap_adSpend s <= 10000 /\
  (0 <= snap_production s <= 200)%Z /\
  (0 <= snap_sold s)%Z /\ (0 <= snap_inventoryEnd s)%Z /\
  snap_revenue s = IZR (snap_sold s) * snap_price s /\
  snap_cost s = IZR (snap_production s) * 8 + snap_adSpend s + 1200 /\
  snap_profit s = snap_revenue s - snap_cost s /\
  5 <= snap_baseDemand s.

(** ** Conversion to [int] *)

Definition INT_MAX : Z := 2147483647.
Definition INT_MIN : Z := (-2147483648)%Z.

(** [floor] of <cmath>; its result is a double. *)
Definition floor_double (x : R) : R := IZR (Zfloor x).

(** The conversion [(int) x] of a double: [x] with its fraction dropped, when
    that is an [int]. Outside that range C++ leaves the conversion undefined;
    the x86-64 instruction that performs it ([cvttsd2si]) then gives
    [INT_MIN], and so does this definition. *)
Definition int_of_double (x : R) : Z :=
  let t := if Rle_dec 0 x then Zfloor x else Zceil x in
  if ((INT_MIN <=? t) && (t <=? INT_MAX))%Z then t else INT_MIN.

(** [Market::realizeDemand] with the conversion of its result to [int] written
    out. [realizeDemand] above gives the same value as long as the rounded
    demand fits an [int]. *)
Definition realizeDemand_int (m : Market) (price adSpend : R) (ev : MarketEvent)
    (inventoryAvail : Z) (rng_z : R) : Z :=
  let priceMult := 1 + priceShock ev in
  let adMult := 1 + adShock ev in
  let mu := baseDemand m + baseShock ev
            - priceSensitivity m * price * priceMult
            + adEffect m * log1p adSpend * adMult
            + 0.08 * IZR inventoryAvail in
  let n := normal_distribution 0 (noiseStd m) in
  let demand := std_max 0 (mu + n rng_z) in
  int_of_double (floor_double (demand + 0.5)).

(** ** Lines the player types *)

(** A line as [stod] or [stoi] meets it: empty (the suggested value is kept),
    a number, or text on which the conversion throws
    ([std::invalid_argument], [std::out_of_range]). *)
Inductive Line (T : Type) : Type :=
| Blank
| Number (v : T)
| Malformed.

Arguments Blank {T}.
Arguments Number {T} v.
Arguments Malformed {T}.

Inductive TypedInput : Type :=
| TypedAccept
| TypedOverride (price_line ad_line : Line R) (production_line : Line Z).

(** [None] when the conversion throws. *)
Definition read_line {T : Type} (l : Line T) : option (option T) :=
  match l with
  | Blank => Some None
  | Number v => Some (Some v)
  | Malformed => None
  end.

(** The three lines are converted in turn; the first conversion that throws
    ends the program, since [main] catches nothing. *)
Definition parse (t : TypedInput) : option PlayerInput :=
  match t with
  | TypedAccept => Some Accept
  | TypedOverride p a q =>
      match read_line p with
      | None => None
      | Some p' =>
          match read_line a with
          | None => None
          | Some a' =>
              match read_line q with
              | None => None
              | Some q' => Some (Override p' a' q')
              end
          end
      end
  end.

(** How the loop over the weeks ends: it is left (after the last week or by
    the [break]), or an exception terminates the program during a week. *)
Inductive Ending : Type :=
| LoopLeft
| Terminated.

(** The loop over the weeks on the lines as typed: the weeks that were played
    to their end, and how the loop ended. *)
Fixpoint play (fuel : nat) (week weeks : Z) (g : Game)
    (typed : Z -> TypedInput) (draws : Z -> Draws) : list Week * Ending :=
  match fuel with
  | O => ([], LoopLeft)
  | S fuel' =>
      if (week <=? weeks)%Z then
        match parse (typed week) with
        | None => ([], Terminated)
        | Some inp =>
            let w := week_body week g inp (draws week) in
            if Rlt_dec (cash (co (wk_game w))) (-5000) then ([w], LoopLeft)
            else
              let rest := play fuel' (week + 1)%Z weeks (wk_game w) typed draws in
              (w :: fst rest, snd rest)
        end
      else ([], LoopLeft)
  end.

Definition main_typed (typed : Z -> TypedInput) (draws : Z -> Draws) :
    list Week * Ending :=
  play 13 1 12 new_game typed draws.

(** What the result of a run of the loop from [week] satisfies: its length,
    what ended it, and the cash of the weeks that were followed by another. *)
Definition play_ok (week weeks : Z) (g : Game) (typed : Z -> TypedInput)
    (r : list Week * Ending) : Prop :=
  (Z.of_nat (List.length (fst r)) <= Z.max 0 (weeks - week + 1))%Z /\
  (snd r = LoopLeft ->
   ((week <= weeks)%Z -> fst r <> []) /\
   ((Z.of_nat (List.length (fst r)) < weeks - week + 1)%Z ->
    cash (co (last (map wk_game (fst r)) g)) < -5000)) /\
  (snd r = Terminated ->
   (Z.of_nat (List.length (fst r)) < weeks - week + 1)%Z /\
   parse (typed (week + Z.of_nat (List.length (fst r)))%Z) = None) /\
  (forall pre w post,
      fst r = (pre ++ w :: post)%list -> post <> [] ->
      -5000 <= cash (co (wk_game w))).

(** ** Properties *)

(** *** Maximum, minimum and clamp *)

Ltac unfold_less :=
  unfold clampv, std_max, std_min in *;
  cbn [less less_dec Less_double Less_int] in *.

Lemma std_max_double (a b : R) : std_max a b = Rmax a b.
Proof.
  unfold_less. unfold Rmax.
  destruct (Rlt_dec a b), (Rle_dec a b); lra.
Qed.

Lemma std_min_double (a b : R) : std_min a b = Rmin a b.
Proof.
  unfold_less. unfold Rmin.
  destruct (Rlt_dec b a), (Rle_dec a b); lra.
Qed.

Lemma std_max_int (a b : Z) : std_max a b = Z.max a b.
Proof.
  unfold_less. destruct (Z_lt_dec a b); lia.
Qed.

Lemma std_min_int (a b : Z) : std_min a b = Z.min a b.
Proof.
  unfold_less. destruct (Z_lt_dec b a); lia.
Qed.

Lemma std_max_lower (a b : R) : a <= std_max a b.
Proof. unfold_less. destruct (Rlt_dec a b); lra. Qed.

Lemma clampv_range (v lo hi : R) : lo <= hi -> lo <= clampv v lo hi <= hi.
Proof.
  intros Hlh. unfold_less.
  destruct (Rlt_dec v hi); destruct (Rlt_dec lo _); lra.
Qed.

Lemma clampv_id (v lo hi : R) : lo <= v <= hi -> clampv v lo hi = v.
Proof.
  intros Hv. unfold_less.
  destruct (Rlt_dec v hi); destruct (Rlt_dec lo _); lra.
Qed.

Lemma clampv_int_range (v lo hi : Z) :
  (lo <= hi)%Z -> (lo <= clampv v lo hi <= hi)%Z.
Proof.
  intros Hlh. unfold clampv. rewrite std_max_int, std_min_int. lia.
Qed.

(** *** The clamp on binary64 values *)

Lemma ltb_leb (x y : float) : PrimFloat.ltb x y = true -> PrimFloat.leb x y = true.
Proof.
  rewrite ltb_spec, leb_spec. unfold SFltb, SFleb.
  destruct (SFcompare _ _) as [[| |] |]; congruence.
Qed.

(** Between two bounds that are numbers, [clampv] returns a value between
    the bounds whatever it is given, NaN and the infinities included. *)
Lemma clampv_binary64_range (v lo hi : float) :
  PrimFloat.leb lo lo = true -> PrimFloat.leb lo hi = true ->
  PrimFloat.leb hi hi = true ->
  PrimFloat.leb lo (clampv v lo hi) = true /\
  PrimFloat.leb (clampv v lo hi) hi = true.
Proof.
  intros Hlo Hlh Hhi. unfold clampv, std_max, std_min.
  cbn [less less_dec Less_binary64].
  destruct (bool_dec (PrimFloat.ltb v hi) true) as [Hv | Hv].
  - destruct (bool_dec (PrimFloat.ltb lo v) true) as [Hl | Hl].
    + split; apply ltb_leb; assumption.
    + split; assumption.
  - destruct (bool_dec (PrimFloat.ltb lo hi) true) as [Hl | Hl]; split; assumption.
Qed.

Lemma clampv_binary64_nan :
  clampv PrimFloat.nan (-200)%float 300%float = 300%float /\
  clampv PrimFloat.infinity (-200)%float 300%float = 300%float /\
  clampv PrimFloat.neg_infinity (-200)%float 300%float = (-200)%float.
Proof. repeat split; reflexivity. Qed.

Lemma std_max_binary64_nonneg (x : float) :
  PrimFloat.leb 0%float (std_max 0%float x) = true.
Proof.
  unfold std_max. cbn [less less_dec Less_binary64].
  destruct (bool_dec (PrimFloat.ltb 0 x) true) as [Hx | Hx];
    [apply ltb_leb; exact Hx | reflexivity].
Qed.

(** *** Learning *)

Lemma learn_in_range (ai : AIAdvisor) (c : LearnCall) :
  weights_in_range (learn ai c).
Proof.
  unfold weights_in_range, learn; cbn [w0 wP wA wB wI].
  repeat split; apply clampv_range; lra.
Qed.

(** C3. Whatever the advisor and whatever the arguments of a sequence of calls
    of [learn], the advisor reached after each call of the sequence has every
    weight inside its clamp range: [w0] in [-200, 300], [wP] in [-10, 10],
    [wA] in [-40, 40], [wB] in [-5, 5] and [wI] in [-0.5, 0.5]. *)
Theorem learn_keeps_weights_clamped (ai : AIAdvisor) (calls : list LearnCall) :
  Forall weights_in_range (learn_trace ai calls).
Proof.
  revert ai. induction calls as [| c rest IH]; intros ai; cbn.
  - constructor.
  - constructor; [apply learn_in_range | apply IH].
Qed.

(** *** Market events *)

Lemma events_distinct : NoDup (map name events).
Proof.
  cbn. repeat constructor; cbn; intuition discriminate.
Qed.

Ltac event_cases :=
  unfold drawEvent, uniform_real_distribution; cbv zeta;
  destruct (Rlt_dec _ 0.10); [| destruct (Rlt_dec _ 0.20);
    [| destruct (Rlt_dec _ 0.30); [| destruct (Rlt_dec _ 0.40)]]].

Ltac event_iff :=
  let H := fresh in
  split;
  [ event_cases; intro H;
    first [ lra | exfalso; apply (f_equal name) in H; cbn in H; discriminate H ]
  | intro H; event_cases; first [ reflexivity | exfalso; lra ] ].

(** C7. [drawEvent] sends a uniform draw [r] of [0, 1) to exactly one of the five
    events, by the cumulative thresholds 0.10, 0.20, 0.30 and 0.40: the positive
    demand shock on [0, 0.10), the negative competitive shock on [0.10, 0.20),
    the mild positive supply shock on [0.20, 0.30), the macro slump on
    [0.30, 0.40) and the neutral event on [0.40, 1), intervals of length 10%,
    10%, 10%, 10% and 60%. The five events are pairwise different and the
    result is always one of them. *)
Theorem drawEvent_thresholds (week : Z) (rng_u : R) :
  0 <= rng_u < 1 ->
  let r := uniform_real_distribution 0 1 rng_u in
  0 <= r < 1 /\
  (drawEvent week rng_u = viral_trend <-> 0 <= r < 0.10) /\
  (drawEvent week rng_u = new_competitor <-> 0.10 <= r < 0.10 + 0.10) /\
  (drawEvent week rng_u = supply_news <-> 0.20 <= r < 0.20 + 0.10) /\
  (drawEvent week rng_u = macro_slump <-> 0.30 <= r < 0.30 + 0.10) /\
  (drawEvent week rng_u = nothing_special <-> 0.40 <= r < 0.40 + 0.60) /\
  In (drawEvent week rng_u) events /\
  NoDup (map name events) /\
  (baseShock viral_trend > 0 /\ baseShock new_competitor < 0 /\
   baseShock supply_news > 0 /\ baseShock macro_slump < 0 /\
   baseShock nothing_special = 0 /\ adShock nothing_special = 0 /\
   priceShock nothing_special = 0).
Proof.
  intros Hr r.
  assert (Hu : r = rng_u) by (unfold r, uniform_real_distribution; ring).
  rewrite Hu. clear r Hu.
  split; [exact Hr |].
  split; [event_iff |].
  split; [event_iff |].
  split; [event_iff |].
  split; [event_iff |].
  split; [event_iff |].
  split; [event_cases; cbn; tauto |].
  split; [apply events_distinct |].
  cbn; lra.
Qed.

Lemma drawEvent_thresholds_witness :
  0 <= 0.25 < 1 /\ drawEvent 1 0.25 = supply_news.
Proof.
  assert (H : 0 <= 0.25 < 1) by lra.
  split; [exact H |].
  apply (proj1 (proj2 (proj2 (proj2 (drawEvent_thresholds 1 0.25 H))))).
  unfold uniform_real_distribution. lra.
Defined.

(** *** Bounds on [exp] and on [ln 1001] *)

Section ExpBounds.

Lemma fx_one_pos : 0 < IZR fx_one.
Proof. apply IZR_lt. reflexivity. Qed.

Lemma sq_exp (t : R) : sq (exp t) = exp (2 * t).
Proof.
  unfold sq. rewrite <- exp_plus. f_equal. ring.
Qed.

Lemma iter_sq_exp (k : nat) (t : R) : Nat.iter k sq (exp t) = exp (2 ^ k * t).
Proof.
  induction k as [| k IH]; cbn [Nat.iter nat_rect].
  - f_equal. cbn. ring.
  - change (sq (Nat.iter k sq (exp t)) = exp (2 ^ S k * t)).
    rewrite IH, sq_exp. f_equal. cbn [pow]. ring.
Qed.

Lemma fx_sq_sound (z : Z) (x : R) :
  (0 <= z)%Z -> fx z <= x -> (0 <= fx_sq z)%Z /\ fx (fx_sq z) <= sq x.
Proof.
  intros Hz Hx. pose proof fx_one_pos as Hs.
  assert (Hone : (0 < fx_one)%Z) by reflexivity.
  assert (Hdiv : (fx_one * (z * z / fx_one) <= z * z)%Z)
    by (apply Z.mul_div_le; exact Hone).
  split.
  - unfold fx_sq. apply Z.div_pos; [nia | exact Hone].
  - apply IZR_le in Hdiv. rewrite !mult_IZR in Hdiv.
    assert (H0 : 0 <= fx z).
    { unfold fx. apply Rmult_le_pos; [apply IZR_le; exact Hz |].
      left. apply Rinv_0_lt_compat. exact Hs. }
    apply Rle_trans with (sq (fx z)); [| unfold sq; nra].
    unfold sq, fx, fx_sq.
    apply Rmult_le_reg_r with (IZR fx_one * IZR fx_one); [nra |].
    replace (IZR z / IZR fx_one * (IZR z / IZR fx_one) * (IZR fx_one * IZR fx_one))
      with (IZR z * IZR z) by (field; lra).
    replace (IZR (z * z / fx_one) / IZR fx_one * (IZR fx_one * IZR fx_one))
      with (IZR fx_one * IZR (z * z / fx_one)) by (field; lra).
    exact Hdiv.
Qed.

Lemma iter_fx_sq_sound (k : nat) (z : Z) (x : R) :
  (0 <= z)%Z -> fx z <= x ->
  (0 <= Nat.iter k fx_sq z)%Z /\ fx (Nat.iter k fx_sq z) <= Nat.iter k sq x.
Proof.
  intros Hz Hx. induction k as [| k [IHz IHx]].
  - cbn. split; assumption.
  - change (Nat.iter (S k) fx_sq z) with (fx_sq (Nat.iter k fx_sq z)).
    change (Nat.iter (S k) sq x) with (sq (Nat.iter k sq x)).
    apply fx_sq_sound; assumption.
Qed.

(** The fixed-point power [z ^ (2 ^ k)] lies below [exp t] as soon as [z]
    lies below [1 + t / 2 ^ k]. *)
Lemma exp_lower_bound (k : nat) (z : Z) (t : R) :
  (0 <= z)%Z -> fx z <= 1 + t / 2 ^ k -> fx (Nat.iter k fx_sq z) <= exp t.
Proof.
  intros Hz Hx.
  assert (Hp : 0 < 2 ^ k) by (apply pow_lt; lra).
  replace (exp t) with (Nat.iter k sq (exp (t / 2 ^ k))).
  - apply iter_fx_sq_sound; [exact Hz |].
    apply Rle_trans with (1 := Hx). apply exp_ineq1_le.
  - rewrite iter_sq_exp. f_equal. field. lra.
Qed.

Lemma fx_gt_of_Z (a z : Z) : (a * fx_one < z)%Z -> IZR a < fx z.
Proof.
  intros H. pose proof fx_one_pos as Hs.
  apply IZR_lt in H. rewrite mult_IZR in H.
  unfold fx. apply Rmult_lt_reg_r with (IZR fx_one); [exact Hs |].
  replace (IZR z / IZR fx_one * IZR fx_one) with (IZR z) by (field; lra).
  exact H.
Qed.

Lemma ln_1001_upper : ln 1001 < 6.9088.
Proof.
  apply exp_lt_inv. rewrite exp_ln by lra.
  pose (z0 := 1000006588745117187%Z).
  assert (Hz : (0 <= z0)%Z) by (unfold z0; lia).
  assert (Hx : fx z0 <= 1 + 6.9088 / 2 ^ 20).
  { unfold fx, z0. change fx_one with 1000000000000000000%Z. cbn [pow]. lra. }
  pose proof (exp_lower_bound 20 z0 6.9088 Hz Hx) as Hexp.
  assert (Hc : (1001 * fx_one < Nat.iter 20 fx_sq z0)%Z) by (vm_compute; reflexivity).
  apply fx_gt_of_Z in Hc. lra.
Qed.

Lemma ln_1001_lower : 6.9087 < ln 1001.
Proof.
  apply exp_lt_inv. rewrite exp_ln by lra.
  pose (z0 := 999993411350250244%Z).
  assert (Hz : (0 <= z0)%Z) by (unfold z0; lia).
  assert (Hx : fx z0 <= 1 + Ropp 6.9087 / 2 ^ 20).
  { unfold fx, z0. change fx_one with 1000000000000000000%Z. cbn [pow]. lra. }
  pose proof (exp_lower_bound 20 z0 (Ropp 6.9087) Hz Hx) as Hexp.
  assert (Hc : (1 * fx_one < 1001 * Nat.iter 20 fx_sq z0)%Z) by (vm_compute; reflexivity).
  apply IZR_lt in Hc. rewrite !mult_IZR in Hc.
  set (p := Nat.iter 20 fx_sq z0) in *.
  unfold fx in Hexp. pose proof fx_one_pos as Hs.
  rewrite exp_Ropp in Hexp.
  pose proof (exp_pos 6.9087) as He.
  set (e := exp 6.9087) in *.
  destruct (Rlt_dec e 1001) as [Hlt | Hge]; [exact Hlt | exfalso].
  assert (Hinv : / e <= / 1001) by (apply Rinv_le_contravar; lra).
  assert (Hp : IZR p / IZR fx_one <= / 1001) by lra.
  apply Rmult_le_compat_r with (r := IZR fx_one * 1001) in Hp; [| nra].
  replace (IZR p / IZR fx_one * (IZR fx_one * 1001)) with (1001 * IZR p) in Hp
    by (field; lra).
  replace (/ 1001 * (IZR fx_one * 1001)) with (IZR fx_one) in Hp by (field; lra).
  lra.
Qed.

End ExpBounds.

(** *** The advisor on the prior weights *)

Lemma predict_yhat (ai : AIAdvisor) (c : LearnCall) :
  predict ai (l_price c) (l_ad c) (l_baseProxy c) (l_inventoryAvail c)
          (l_eventAdMult c) (l_eventPriceMult c)
  = std_max 0 (IZR (l_sold c) - learn_err ai c).
Proof.
  unfold predict, learn_err. f_equal. ring.
Qed.

Lemma learn_w0 (ai : AIAdvisor) (c : LearnCall) :
  w0 (learn ai c) = clampv (w0 ai + lr ai * learn_err ai c * 1) (-200) 300.
Proof. reflexivity. Qed.

Lemma scenario_err : learn_err new_advisor scenario_call = 29 - 8 * ln 1001.
Proof.
  unfold learn_err, log1p; cbn.
  replace (1 + 1000) with 1001 by lra. lra.
Qed.

Lemma scenario_predict :
  predict new_advisor 20 1000 50 60 0 0
  = Rmax 0 (40 + 1 * (- 20) + 8 * ln 1001 + 0.5 * 50 + 0.1 * 60).
Proof.
  unfold predict, log1p; cbn. rewrite std_max_double.
  replace (1 + 1000) with 1001 by lra. f_equal. lra.
Qed.

Lemma scenario_predict_bounds :
  106.2696 < predict new_advisor 20 1000 50 60 0 0 < 106.2704.
Proof.
  rewrite scenario_predict.
  pose proof ln_1001_lower. pose proof ln_1001_upper.
  rewrite Rmax_right by lra. lra.
Qed.

(** C1 (as stated, refuted). On the prior weights the prediction
    [predict(20, 1000, 50, 60, 0, 0)] is not within 5 units of 100.4, let alone
    within a rounding tolerance. *)
Lemma predict_priors_far_from_100_4 :
  ~ Rabs (predict new_advisor 20 1000 50 60 0 0 - 100.4) <= 5.
Proof.
  pose proof scenario_predict_bounds as [Hlo Hhi].
  intros H. unfold Rabs in H. destruct (Rcase_abs _); lra.
Qed.

(** C1 (amended). On the prior weights [(40, 1, 8, 0.5, 0.1)] the prediction
    [predict(20, 1000, 50, 60, 0, 0)] equals
    [max(0, 40 + 1 * (-20) + 8 * ln 1001 + 0.5 * 50 + 0.1 * 60)], which is
    106.27 to within 0.001. *)
Theorem predict_priors_value :
  predict new_advisor 20 1000 50 60 0 0
  = Rmax 0 (40 + 1 * (- 20) + 8 * ln 1001 + 0.5 * 50 + 0.1 * 60)
  /\ Rabs (predict new_advisor 20 1000 50 60 0 0 - 106.27) <= 0.001.
Proof.
  split; [apply scenario_predict |].
  pose proof scenario_predict_bounds as [Hlo Hhi].
  unfold Rabs. destruct (Rcase_abs _); lra.
Qed.

Lemma scenario_w0 :
  w0 (learn new_advisor scenario_call)
  = w0 new_advisor + lr new_advisor * learn_err new_advisor scenario_call * 1.
Proof.
  rewrite learn_w0. apply clampv_id.
  rewrite scenario_err. cbn [w0 lr new_advisor].
  pose proof ln_1001_lower. pose proof ln_1001_upper. lra.
Qed.

(** C2 (as stated, refuted). From the prior weights the call
    [learn(20, 1000, 50, 60, 80, 0, 0)] does not have a positive error and
    does not move [w0] upward. *)
Lemma learn_priors_not_upward :
  ~ (0 < learn_err new_advisor scenario_call /\
     w0 new_advisor < w0 (learn new_advisor scenario_call) /\
     w0 (learn new_advisor scenario_call) - w0 new_advisor
     = lr new_advisor * learn_err new_advisor scenario_call * 1).
Proof.
  intros [Herr _]. rewrite scenario_err in Herr.
  pose proof ln_1001_lower. lra.
Qed.

(** C2 (amended). From the prior weights the call
    [learn(20, 1000, 50, 60, 80, 0, 0)] has a negative error [sold - yhat]
    (the model predicts about 106.27 units, 80 were sold) and moves [w0]
    downward, by exactly [lr * err * 1]. *)
Theorem learn_priors_moves_w0_down :
  learn_err new_advisor scenario_call < 0 /\
  w0 (learn new_advisor scenario_call) < w0 new_advisor /\
  w0 (learn new_advisor scenario_call) - w0 new_advisor
  = lr new_advisor * learn_err new_advisor scenario_call * 1.
Proof.
  assert (Herr : learn_err new_advisor scenario_call < 0).
  { rewrite scenario_err. pose proof ln_1001_lower. lra. }
  rewrite scenario_w0. cbn [lr new_advisor] in *.
  repeat split; [exact Herr | lra | ring].
Qed.

(** *** Neutral events *)

(** C9. With both event multipliers at 0, [predict] is the linear combination
    without the [(1 + shock)] factors, floored at 0; and with an event whose
    three shocks are 0, [realizeDemand] is, on the same noise draw (the same
    variate of the generator, scaled by [noiseStd]), the computation without
    the shock terms. *)
Theorem neutral_event_is_no_shock (a : AIAdvisor) (m : Market) (nm : string)
    (price ad baseProxy : R) (inventoryAvail : Z) (rng_z : R) :
  predict a price ad baseProxy inventoryAvail 0 0
  = predict_no_shock a price ad baseProxy inventoryAvail
  /\ realizeDemand m price ad (mkEvent nm 0 0 0) inventoryAvail rng_z
     = realizeDemand_no_shock m price ad inventoryAvail
         (normal_distribution 0 (noiseStd m) rng_z).
Proof.
  split.
  - unfold predict, predict_no_shock, log1p. rewrite std_max_double. f_equal. ring.
  - unfold realizeDemand, realizeDemand_no_shock, log1p; cbn [baseShock adShock priceShock].
    rewrite std_max_double. do 3 f_equal. ring.
Qed.

(** *** Realized demand and sales *)

Lemma realizeDemand_nonneg (m : Market) (price adSpend : R) (ev : MarketEvent)
    (inventoryAvail : Z) (noise : R) :
  (0 <= realizeDemand m price adSpend ev inventoryAvail noise)%Z.
Proof.
  unfold realizeDemand. cbv zeta.
  apply Zfloor_lub.
  match goal with |- context [std_max 0 ?y] => pose proof (std_max_lower 0 y) end.
  lra.
Qed.

(** *** Public proxy *)

Lemma skipn_nth_cons (h : list Snapshot) (s : nat) :
  (s < List.length h)%nat ->
  skipn s h = nth s h default_snapshot :: skipn (S s) h.
Proof.
  revert s. induction h as [| x h IH]; intros s Hs; cbn in Hs; [lia |].
  destruct s as [| s]; [reflexivity |].
  cbn [skipn nth]. apply IH. lia.
Qed.

Lemma sum_sold_loop (h : list Snapshot) (n s : nat) (acc : R) :
  (s + n <= List.length h)%nat ->
  fold_left (fun a i => a + IZR (snap_sold (nth i h default_snapshot))) (seq s n) acc
  = acc + IZR (sum_Z (map snap_sold (firstn n (skipn s h)))).
Proof.
  revert s acc. induction n as [| n IH]; intros s acc Hlen.
  - cbn. lra.
  - cbn [seq fold_left]. rewrite IH by lia.
    rewrite (skipn_nth_cons h s) by lia.
    cbn [firstn map sum_Z fold_right]. rewrite plus_IZR.
    fold (sum_Z (map snap_sold (firstn n (skipn (S s) h)))). lra.
Qed.

Lemma recent_sales_length (h : list Snapshot) :
  List.length (recent_sales h) = Nat.min 3 (List.length h).
Proof.
  unfold recent_sales. rewrite length_map, length_skipn. lia.
Qed.

Lemma recent_sales_suffix (h : list Snapshot) :
  map snap_sold h
  = (map snap_sold (firstn (List.length h - 3) h) ++ recent_sales h)%list.
Proof.
  unfold recent_sales. rewrite <- map_app, firstn_skipn. reflexivity.
Qed.

Lemma update_proxy_mean (h : list Snapshot) (baseProxy rng_z : R) :
  update_proxy h baseProxy rng_z
  = Rmax 0 (0.7 * baseProxy + 0.3 * mean (recent_sales h)
            + normal_distribution 0 3.0 rng_z).
Proof.
  unfold update_proxy, mean. cbv zeta. rewrite std_max_double, std_max_int.
  set (len := List.length h).
  assert (Hstart : Z.to_nat (Z.max 0 (Z.of_nat len - 3)) = (len - 3)%nat) by lia.
  assert (Hcount : Z.to_nat (Z.of_nat len - Z.max 0 (Z.of_nat len - 3))
                   = (len - (len - 3))%nat) by lia.
  rewrite Hstart, Hcount.
  rewrite sum_sold_loop by (fold len; lia).
  rewrite firstn_all2 by (rewrite length_skipn; fold len; lia).
  fold (recent_sales h).
  replace (IZR (Z.of_nat len - Z.max 0 (Z.of_nat len - 3)))
    with (INR (List.length (recent_sales h))).
  - rewrite Rplus_0_l. unfold recent_sales. fold len. f_equal. lra.
  - rewrite recent_sales_length. fold len. rewrite INR_IZR_INZ. f_equal. lia.
Qed.

(** C8. Once the sale of the week is recorded (the history is not empty), the
    proxy update takes the arithmetic mean of the most recent up-to-3 recorded
    sale counts (all of them when fewer than 3 are recorded), sets the proxy to
    [0.7 * currentProxy + 0.3 * mean] plus one draw of a normal distribution
    of mean 0 and standard deviation 3.0, and floors it at zero; the new proxy
    is never negative, whatever the current proxy, the sale counts and the
    noise draw. *)
Theorem update_proxy_spec (h : list Snapshot) (baseProxy rng_z : R) :
  h <> [] ->
  update_proxy h baseProxy rng_z
  = Rmax 0 (0.7 * baseProxy + 0.3 * mean (recent_sales h)
            + normal_distribution 0 3.0 rng_z)
  /\ map snap_sold h
     = (map snap_sold (firstn (List.length h - 3) h) ++ recent_sales h)%list
  /\ List.length (recent_sales h) = Nat.min 3 (List.length h)
  /\ (0 < List.length (recent_sales h))%nat
  /\ 0 <= update_proxy h baseProxy rng_z.
Proof.
  intros Hne.
  split; [apply update_proxy_mean |].
  split; [apply recent_sales_suffix |].
  split; [apply recent_sales_length |].
  split.
  - rewrite recent_sales_length. destruct h; [congruence | cbn; lia].
  - unfold update_proxy. cbv zeta. apply std_max_lower.
Qed.

Lemma update_proxy_spec_witness :
  [mkSnapshot 1 60 0 20 1000 50 80 10 1600 2600 (-1000)] <> [] /\
  0 <= update_proxy [mkSnapshot 1 60 0 20 1000 50 80 10 1600 2600 (-1000)] 50 0.
Proof.
  assert (H : [mkSnapshot 1 60 0 20 1000 50 80 10 1600 2600 (-1000)] <> [])
    by discriminate.
  split; [exact H |].
  exact (proj2 (proj2 (proj2 (proj2
    (update_proxy_spec [mkSnapshot 1 60 0 20 1000 50 80 10 1600 2600 (-1000)]
                       50 0 H))))).
Defined.

(** *** Loops *)

Section LoopInvariants.

Context {St : Type} (Inv : St -> Prop).

Lemma for_double_inv (fuel : nat) (lo x hi step : R) (body : R -> St -> St) (s : St) :
  0 <= step -> lo <= x ->
  (forall v s', lo <= v <= hi -> Inv s' -> Inv (body v s')) ->
  Inv s -> Inv (for_double fuel x hi step body s).
Proof.
  intros Hstep. revert x s.
  induction fuel as [| fuel IH]; intros x s Hx Hbody Hs; cbn; [exact Hs |].
  destruct (Rle_dec x hi) as [Hle | _]; [| exact Hs].
  apply IH; [lra | exact Hbody |].
  apply Hbody; [lra | exact Hs].
Qed.

Lemma for_int_inv (fuel : nat) (lo i hi step : Z) (body : Z -> St -> St) (s : St) :
  (0 <= step)%Z -> (lo <= i)%Z ->
  (forall v s', (lo <= v <= hi)%Z -> Inv s' -> Inv (body v s')) ->
  Inv s -> Inv (for_int fuel i hi step body s).
Proof.
  intros Hstep. revert i s.
  induction fuel as [| fuel IH]; intros i s Hi Hbody Hs; cbn; [exact Hs |].
  destruct (Z.leb_spec i hi) as [Hle | _]; [| exact Hs].
  apply IH; [lia | exact Hbody |].
  apply Hbody; [lia | exact Hs].
Qed.

End LoopInvariants.

Section LoopUnrolling.

Context {St : Type}.

(** A loop that is granted more iterations than it takes visits exactly
    the values of its range. *)
Lemma for_double_range (n fuel : nat) (x hi step : R) (body : R -> St -> St) (s : St) :
  (n < fuel)%nat ->
  (forall k, (k < n)%nat -> x + INR k * step <= hi) ->
  hi < x + INR n * step ->
  for_double fuel x hi step body s
  = fold_left (fun s' v => body v s') (range_double x step n) s.
Proof.
  revert fuel x s.
  induction n as [| n IH]; intros fuel x s Hfuel Hin Hout;
    (destruct fuel as [| fuel]; [lia |]); cbn [for_double range_double fold_left].
  - cbn in Hout. destruct (Rle_dec x hi); [lra | reflexivity].
  - pose proof (Hin 0%nat ltac:(lia)) as H0. cbn in H0.
    destruct (Rle_dec x hi); [| lra].
    apply IH; [lia | |].
    + intros k Hk. pose proof (Hin (S k) ltac:(lia)) as Hk'.
      rewrite S_INR in Hk'. lra.
    + rewrite S_INR in Hout. lra.
Qed.

Lemma for_int_range (n fuel : nat) (i hi step : Z) (body : Z -> St -> St) (s : St) :
  (n < fuel)%nat ->
  (forall k, (k < n)%nat -> i + Z.of_nat k * step <= hi)%Z ->
  (hi < i + Z.of_nat n * step)%Z ->
  for_int fuel i hi step body s
  = fold_left (fun s' v => body v s') (range_int i step n) s.
Proof.
  revert fuel i s.
  induction n as [| n IH]; intros fuel i s Hfuel Hin Hout;
    (destruct fuel as [| fuel]; [lia |]); cbn [for_int range_int fold_left].
  - destruct (Z.leb_spec i hi); [lia | reflexivity].
  - pose proof (Hin 0%nat ltac:(lia)) as H0.
    destruct (Z.leb_spec i hi); [| lia].
    apply IH; [lia | |].
    + intros k Hk. pose proof (Hin (S k) ltac:(lia)) as Hk'. lia.
    + lia.
Qed.

Lemma fold_left_flat_map {A B : Type} (f : St -> B -> St) (g : A -> list B)
    (l : list A) (s : St) :
  fold_left f (flat_map g l) s = fold_left (fun s' a => fold_left f (g a) s') l s.
Proof.
  revert s. induction l as [| a l IH]; intros s; cbn; [reflexivity |].
  rewrite fold_left_app. apply IH.
Qed.

Lemma fold_left_map {A B : Type} (f : St -> B -> St) (g : A -> B)
    (l : list A) (s : St) :
  fold_left f (map g l) s = fold_left (fun s' a => f s' (g a)) l s.
Proof.
  revert s. induction l as [| a l IH]; intros s; cbn; [reflexivity | apply IH].
Qed.

Lemma fold_left_ext_eq {A : Type} (f g : St -> A -> St) (l : list A) (s : St) :
  (forall s' a, f s' a = g s' a) -> fold_left f l s = fold_left g l s.
Proof.
  intros Hfg. revert s. induction l as [| a l IH]; intros s; cbn; [reflexivity |].
  rewrite Hfg. apply IH.
Qed.

End LoopUnrolling.

(** *** Plan search *)

Lemma evaluate_bounds (a : AIAdvisor) (c : Company) (bp am pm price ad : R)
    (prod : Z) (st : Search) :
  in_grid_bounds (mkPlan price ad prod) -> in_grid_bounds (best st) ->
  in_grid_bounds (best (evaluate a c bp am pm price ad prod st)).
Proof.
  intros Hp Hst. unfold evaluate. cbv zeta.
  destruct (Rgt_dec _ _); [exact Hp | exact Hst].
Qed.

Lemma suggest_search_bounds (fuel : nat) (a : AIAdvisor) (c : Company) (bp am pm : R) :
  in_grid_bounds (best (suggest_search fuel a c bp am pm)).
Proof.
  unfold suggest_search.
  apply (for_double_inv (fun st => in_grid_bounds (best st)) fuel 9); [lra | lra | |].
  - intros price st Hprice Hst.
    apply (for_double_inv (fun st => in_grid_bounds (best st)) fuel 0);
      [lra | lra | | exact Hst].
    intros ad st' Had Hst'.
    apply (for_int_inv (fun st => in_grid_bounds (best st)) fuel 0);
      [lia | lia | | exact Hst'].
    intros prod st'' Hprod Hst''.
    apply evaluate_bounds; [| exact Hst''].
    unfold in_grid_bounds; cbn. repeat split; (lra || lia).
  - unfold in_grid_bounds, search_init; cbn. repeat split; (lra || lia).
Qed.

(** C5. Whatever the advisor's weights, the company, the proxy and the event
    multipliers, the plan returned by [suggest] has its price in [9, 40], its
    ad spend in [0, 8000] and its production in [0, 120]. *)
Theorem suggest_in_grid_bounds (a : AIAdvisor) (c : Company) (bp am pm : R) :
  9 <= price (suggest a c bp am pm) <= 40 /\
  0 <= adSpend (suggest a c bp am pm) <= 8000 /\
  (0 <= production (suggest a c bp am pm) <= 120)%Z.
Proof.
  exact (suggest_search_bounds suggest_fuel a c bp am pm).
Qed.

(** The three loops of [suggest] end within 32, 17 and 13 iterations, and
    visit the grid in the order of [grid]. *)
Lemma suggest_search_grid (fuel : nat) (a : AIAdvisor) (c : Company) (bp am pm : R) :
  (32 < fuel)%nat ->
  suggest_search fuel a c bp am pm = search_over a c bp am pm grid.
Proof.
  intros Hfuel. unfold suggest_search, search_over, grid.
  rewrite (for_double_range 32 fuel 9 40 1); [| lia | |].
  - rewrite fold_left_flat_map. apply fold_left_ext_eq. intros st price.
    rewrite (for_double_range 17 fuel 0 8000 500); [| lia | |].
    + rewrite fold_left_flat_map. apply fold_left_ext_eq. intros st' ad.
      rewrite (for_int_range 13 fuel 0 120 10); [| lia | |].
      * rewrite fold_left_map. reflexivity.
      * intros k Hk. lia.
      * lia.
    + intros k Hk.
      assert (H16 : INR k <= INR 16) by (apply le_INR; lia).
      cbn in H16. lra.
    + cbn. lra.
  - intros k Hk.
    assert (H31 : INR k <= INR 31) by (apply le_INR; lia).
    cbn in H31. lra.
  - cbn. lra.
Qed.

(** *** Order of the grid *)

Section SortedLists.

Context {A B : Type} (RA : A -> A -> Prop) (RB : B -> B -> Prop).

Lemma sorted_app (l1 l2 : list B) :
  StronglySorted RB l1 -> StronglySorted RB l2 ->
  (forall x y, In x l1 -> In y l2 -> RB x y) ->
  StronglySorted RB (l1 ++ l2).
Proof.
  intros H1 H2 Hcross. induction H1 as [| x l1 Hl1 IH Hx]; cbn; [exact H2 |].
  constructor.
  - apply IH. intros u v Hu Hv. apply Hcross; [right; exact Hu | exact Hv].
  - apply Forall_app. split; [exact Hx |].
    apply Forall_forall. intros y Hy. apply Hcross; [left; reflexivity | exact Hy].
Qed.

Lemma sorted_map (f : A -> B) (l : list A) :
  (forall x y, RA x y -> RB (f x) (f y)) ->
  StronglySorted RA l -> StronglySorted RB (map f l).
Proof.
  intros Hf Hl. induction Hl as [| x l Hl IH Hx]; cbn; constructor; [exact IH |].
  apply Forall_map. revert Hx. apply Forall_impl. intros y. apply Hf.
Qed.

Lemma sorted_flat_map (f : A -> list B) (l : list A) :
  (forall x, StronglySorted RB (f x)) ->
  (forall x y u v, RA x y -> In u (f x) -> In v (f y) -> RB u v) ->
  StronglySorted RA l -> StronglySorted RB (flat_map f l).
Proof.
  intros Hin Hcross Hl. induction Hl as [| x l Hl IH Hx]; cbn; [constructor |].
  apply sorted_app; [apply Hin | exact IH |].
  intros u v Hu Hv. apply in_flat_map in Hv as (y & Hy & Hv).
  rewrite Forall_forall in Hx. exact (Hcross x y u v (Hx y Hy) Hu Hv).
Qed.

Lemma sorted_split (pre post : list B) (p q : B) :
  StronglySorted RB (pre ++ p :: post) -> In q pre -> RB q p.
Proof.
  induction pre as [| x pre IH]; cbn; intros Hs Hq; [contradiction |].
  apply StronglySorted_inv in Hs as [Hs Hx].
  destruct Hq as [<- | Hq]; [| exact (IH Hs Hq)].
  rewrite Forall_forall in Hx. apply Hx. apply in_or_app. right. left. reflexivity.
Qed.

End SortedLists.

Lemma range_double_lower (n : nat) (x step v : R) :
  0 < step -> In v (range_double x step n) -> x <= v.
Proof.
  intros Hstep. revert x. induction n as [| n IH]; intros x; cbn; [contradiction |].
  intros [<- | Hv]; [lra |]. specialize (IH _ Hv). lra.
Qed.

Lemma range_double_sorted (n : nat) (x step : R) :
  0 < step -> StronglySorted Rlt (range_double x step n).
Proof.
  intros Hstep. revert x. induction n as [| n IH]; intros x; cbn; constructor.
  - apply IH.
  - apply Forall_forall. intros v Hv.
    pose proof (range_double_lower n (x + step) step v Hstep Hv). lra.
Qed.

Lemma range_int_lower (n : nat) (i step v : Z) :
  (0 < step)%Z -> In v (range_int i step n) -> (i <= v)%Z.
Proof.
  intros Hstep. revert i. induction n as [| n IH]; intros i; cbn; [contradiction |].
  intros [<- | Hv]; [lia |]. specialize (IH _ Hv). lia.
Qed.

Lemma range_int_sorted (n : nat) (i step : Z) :
  (0 < step)%Z -> StronglySorted Z.lt (range_int i step n).
Proof.
  intros Hstep. revert i. induction n as [| n IH]; intros i; cbn; constructor.
  - apply IH.
  - apply Forall_forall. intros v Hv.
    pose proof (range_int_lower n (i + step) step v Hstep Hv). lia.
Qed.

(** The grid is listed price ascending, then ad spend ascending, then
    production ascending. *)
Lemma grid_sorted : StronglySorted plan_before grid.
Proof.
  unfold grid.
  apply (sorted_flat_map Rlt); [| | apply range_double_sorted; lra].
  - intros price.
    apply (sorted_flat_map Rlt); [| | apply range_double_sorted; lra].
    + intros ad. apply (sorted_map Z.lt); [| apply range_int_sorted; lia].
      intros x y Hxy. unfold plan_before; cbn. right. split; [reflexivity |].
      right. split; [reflexivity | exact Hxy].
    + intros ad ad' u v Had Hu Hv.
      apply in_map_iff in Hu as (x & <- & _).
      apply in_map_iff in Hv as (y & <- & _).
      unfold plan_before; cbn. right. split; [reflexivity |]. left. exact Had.
  - intros price price' u v Hprice Hu Hv.
    apply in_flat_map in Hu as (ad & _ & Hu).
    apply in_map_iff in Hu as (x & <- & _).
    apply in_flat_map in Hv as (ad' & _ & Hv).
    apply in_map_iff in Hv as (y & <- & _).
    unfold plan_before; cbn. left. exact Hprice.
Qed.

Lemma grid_order (pre post : list Plan) (p q : Plan) :
  grid = (pre ++ p :: post)%list -> In q pre -> plan_before q p.
Proof.
  intros Hg Hq. pose proof grid_sorted as Hs. rewrite Hg in Hs.
  exact (sorted_split plan_before pre post p q Hs Hq).
Qed.

Section FirstBest.

Variables (a : AIAdvisor) (c : Company) (bp am pm : R).

Let profit : Plan -> R := predicted_profit a c bp am pm.
Let run : list Plan -> Search := search_over a c bp am pm.

Lemma evaluate_profit (p : Plan) (st : Search) :
  evaluate a c bp am pm (price p) (adSpend p) (production p) st
  = if Rgt_dec (profit p) (bestProfit st) then mkSearch (profit p) p else st.
Proof. destruct p; reflexivity. Qed.

Lemma search_over_snoc (l : list Plan) (p : Plan) :
  run (l ++ [p])
  = if Rgt_dec (profit p) (bestProfit (run l)) then mkSearch (profit p) p
    else run l.
Proof.
  unfold run, search_over. rewrite fold_left_app. cbn [fold_left].
  apply evaluate_profit.
Qed.

Lemma search_over_dominates (l : list Plan) :
  -1e18 <= bestProfit (run l) /\
  forall q, In q l -> profit q <= bestProfit (run l).
Proof.
  induction l as [| p l [IHinit IHl]] using rev_ind.
  - split; [| intros q []].
    unfold run, search_over, search_init. cbn [fold_left bestProfit]. lra.
  - rewrite search_over_snoc.
    destruct (Rgt_dec (profit p) (bestProfit (run l))) as [Hgt | Hle];
      cbn [bestProfit]; (split; [lra |]);
      intros q Hq; apply in_app_or in Hq as [Hq | [<- | []]];
      try (specialize (IHl q Hq)); lra.
Qed.

(** A point whose profit some earlier point already reached leaves both
    [bestProfit] and [best] as they are. *)
Lemma search_over_tie (l : list Plan) (p q : Plan) :
  In q l -> profit q = profit p -> run (l ++ [p]) = run l.
Proof.
  intros Hq Heq. rewrite search_over_snoc.
  destruct (search_over_dominates l) as [_ Hdom]. specialize (Hdom q Hq).
  destruct (Rgt_dec (profit p) (bestProfit (run l))); [lra | reflexivity].
Qed.

Lemma search_over_first_best (l : list Plan) :
  (run l = search_init /\ forall q, In q l -> profit q <= -1e18) \/
  (exists pre post,
      l = (pre ++ best (run l) :: post)%list /\
      bestProfit (run l) = profit (best (run l)) /\
      -1e18 < profit (best (run l)) /\
      (forall q, In q pre -> profit q < profit (best (run l))) /\
      (forall q, In q post -> profit q <= profit (best (run l)))).
Proof.
  induction l as [| p l IH] using rev_ind.
  - left. split; [reflexivity | intros q []].
  - destruct (search_over_dominates l) as [Hinit Hdom].
    rewrite search_over_snoc.
    destruct (Rgt_dec (profit p) (bestProfit (run l))) as [Hgt | Hle].
    + right. exists l, []. cbn [best bestProfit].
      repeat split; [lra | | intros q []].
      intros q Hq. specialize (Hdom q Hq). lra.
    + destruct IH as [[Hrun Hall] | (pre & post & Hl & Hbest & Hgt & Hpre & Hpost)].
      * left. split; [exact Hrun |].
        intros q Hq. apply in_app_or in Hq as [Hq | [<- | []]]; [auto |].
        rewrite Hrun in Hle. unfold search_init in Hle. cbn [bestProfit] in Hle. lra.
      * right. exists pre, (post ++ [p])%list.
        repeat split; try assumption.
        -- rewrite Hl at 1. rewrite <- app_assoc. reflexivity.
        -- intros q Hq. apply in_app_or in Hq as [Hq | [<- | []]]; [auto |].
           rewrite <- Hbest. lra.
Qed.

End FirstBest.

Lemma predict_nonneg (a : AIAdvisor) (price ad bp : R) (inventoryAvail : Z)
    (am pm : R) :
  0 <= predict a price ad bp inventoryAvail am pm.
Proof. unfold predict. cbv zeta. apply std_max_lower. Qed.

Lemma round_int_nonneg (x : R) : 0 <= x -> (0 <= round_int x)%Z.
Proof.
  intros Hx. unfold round_int.
  destruct (Rle_dec 0 x); [| lra].
  apply Zfloor_lub. lra.
Qed.

Lemma first_point_in_grid : In (mkPlan 9 0 0) grid.
Proof.
  unfold grid. apply in_flat_map. exists 9. split; [left; reflexivity |].
  apply in_flat_map. exists 0. split; [left; reflexivity |].
  left. reflexivity.
Qed.

(** With a stock that is not negative and an overhead below [1e18], as in
    every game, the first grid point already beats the starting value of
    [bestProfit], and [suggest] returns the first best point of the grid. *)
Lemma suggest_first_best_in_game (a : AIAdvisor) (c : Company) (bp am pm : R) :
  (0 <= inventory c)%Z -> fixedCost c < 1e18 ->
  exists pre post,
    grid = (pre ++ suggest a c bp am pm :: post)%list /\
    (forall q, In q pre ->
       predicted_profit a c bp am pm q
       < predicted_profit a c bp am pm (suggest a c bp am pm)) /\
    (forall q, In q post ->
       predicted_profit a c bp am pm q
       <= predicted_profit a c bp am pm (suggest a c bp am pm)).
Proof.
  intros Hinv Hfixed.
  assert (Hgrid : suggest a c bp am pm = best (search_over a c bp am pm grid)).
  { unfold suggest. rewrite suggest_search_grid; [reflexivity |].
    unfold suggest_fuel. lia. }
  rewrite Hgrid.
  destruct (search_over_first_best a c bp am pm grid)
    as [[_ Hall] | (pre & post & Hl & _ & _ & Hpre & Hpost)].
  - exfalso. specialize (Hall _ first_point_in_grid).
    unfold predicted_profit in Hall. cbv zeta in Hall.
    cbn [price adSpend production] in Hall.
    set (demandHat := predict a 9 0 bp (inventory c + 0) am pm) in Hall.
    assert (Hsell : (0 <= std_min (round_int demandHat) (inventory c + 0)%Z)%Z).
    { pose proof (round_int_nonneg demandHat (predict_nonneg _ _ _ _ _ _ _)).
      rewrite std_min_int. lia. }
    apply IZR_le in Hsell.
    set (canSell := IZR (std_min (round_int demandHat) (inventory c + 0)%Z)) in *.
    lra.
  - exists pre, post. repeat split; assumption.
Qed.

(** C6. [suggest] visits the grid in the order price ascending, then ad spend
    ascending, then production ascending: that is the order of the list
    [grid], whose every point comes after the points before it in that order.
    A grid point whose profit equals that of a point visited before it never
    replaces the incumbent best. The plan returned is the first point of that
    order that reaches the highest profit (every point before it has a
    strictly lower profit, no point after it a higher one) as soon as some grid
    point beats the starting value [-1e18] of [bestProfit], which the first
    grid point does whenever the stock is not negative and the overhead is
    below [1e18]; when no grid point beats [-1e18], the starting plan is
    returned. *)
Theorem suggest_first_found_wins (a : AIAdvisor) (c : Company) (bp am pm : R) :
  let profit := predicted_profit a c bp am pm in
  let run := search_over a c bp am pm in
  let first_best :=
    exists pre post,
      grid = (pre ++ suggest a c bp am pm :: post)%list /\
      (forall q, In q pre -> profit q < profit (suggest a c bp am pm)) /\
      (forall q, In q post -> profit q <= profit (suggest a c bp am pm)) in
  suggest a c bp am pm = best (run grid) /\
  (forall pre p post q,
      grid = (pre ++ p :: post)%list -> In q pre -> plan_before q p) /\
  (forall pre p post q,
      grid = (pre ++ p :: post)%list -> In q pre -> profit q = profit p ->
      run (pre ++ [p])%list = run pre) /\
  ((suggest a c bp am pm = best search_init /\
    forall q, In q grid -> profit q <= -1e18) \/ first_best) /\
  ((0 <= inventory c)%Z -> fixedCost c < 1e18 -> first_best).
Proof.
  intros profit run first_best.
  assert (Hgrid : suggest a c bp am pm = best (run grid)).
  { unfold suggest, run. rewrite suggest_search_grid; [reflexivity |].
    unfold suggest_fuel. lia. }
  split; [exact Hgrid |].
  split; [intros pre p post q; apply grid_order |].
  split; [| split].
  - intros pre p post q _ Hq Heq.
    apply (search_over_tie a c bp am pm pre p q Hq Heq).
  - unfold first_best. rewrite Hgrid.
    destruct (search_over_first_best a c bp am pm grid)
      as [[Hrun Hall] | (pre & post & Hl & _ & Hgt & Hpre & Hpost)].
    + left. split; [unfold run; rewrite Hrun; reflexivity | exact Hall].
    + right. exists pre, post. repeat split; assumption.
  - apply suggest_first_best_in_game.
Qed.

(** *** Game loop *)

Lemma week_body_calls (week : Z) (g : Game) (inp : PlayerInput) (d : Draws) :
  let w := week_body week g inp d in
  wk_realize_inventoryAvail w = (inventory (co g) + production (wk_chosen w))%Z /\
  wk_potential w
  = realizeDemand (mk (wk_game w)) (price (wk_chosen w)) (adSpend (wk_chosen w))
                  (wk_ev w) (wk_realize_inventoryAvail w) (d_demand d) /\
  wk_sold w = std_min (wk_potential w) (wk_realize_inventoryAvail w) /\
  inventory (co (wk_game w)) = (wk_realize_inventoryAvail w - wk_sold w)%Z /\
  ai (wk_game w) = learn (ai g) (wk_learn w) /\
  l_sold (wk_learn w) = wk_sold w /\
  l_inventoryAvail (wk_learn w) = (inventory (co (wk_game w)) + wk_sold w)%Z.
Proof.
  cbv zeta. unfold week_body. cbv zeta.
  cbn [wk_realize_inventoryAvail wk_chosen wk_potential wk_game wk_ev wk_sold
       wk_learn mk co ai inventory l_sold l_inventoryAvail].
  repeat split; reflexivity.
Qed.

Lemma week_body_presale (week : Z) (g : Game) (inp : PlayerInput) (d : Draws) :
  learn_on_presale (week_body week g inp d).
Proof.
  destruct (week_body_calls week g inp d) as (_ & _ & _ & Hinv & _ & _ & Hlearn).
  unfold learn_on_presale. rewrite Hlearn, Hinv. lia.
Qed.

Lemma weeks_loop_presale (fuel : nat) (week weeks : Z) (g : Game)
    (inputs : Z -> PlayerInput) (draws : Z -> Draws) :
  Forall learn_on_presale (weeks_loop fuel week weeks g inputs draws).
Proof.
  revert week g. induction fuel as [| fuel IH]; intros week g; cbn [weeks_loop].
  - constructor.
  - destruct (week <=? weeks)%Z; [| constructor].
    cbv zeta. constructor; [apply week_body_presale |].
    destruct (Rlt_dec _ _); [constructor | apply IH].
Qed.

(** The loop over the weeks ends by itself: an iteration granted beyond
    [weeks - week + 1] is never used. *)
Lemma weeks_loop_fuel (fuel : nat) (week weeks : Z) (g : Game)
    (inputs : Z -> PlayerInput) (draws : Z -> Draws) :
  (weeks - week + 1 <= Z.of_nat fuel)%Z ->
  weeks_loop (S fuel) week weeks g inputs draws
  = weeks_loop fuel week weeks g inputs draws.
Proof.
  revert week g. induction fuel as [| fuel IH]; intros week g Hfuel.
  - cbn [weeks_loop]. destruct (Z.leb_spec week weeks); [lia | reflexivity].
  - cbn [weeks_loop] in *. cbv zeta.
    destruct (Z.leb_spec week weeks); [| reflexivity].
    f_equal. destruct (Rlt_dec _ _); [reflexivity |].
    apply IH. lia.
Qed.

(** C10. In every week of the main loop the [inventoryAvail] handed to
    [learn] is the stock that was on sale that week: the stock after
    production and before the sales, which is the value handed to
    [realizeDemand], and which equals the end-of-week stock plus the units
    sold. The features of the learning step are thus computed on the pre-sale
    availability, not on the stock left after the sales. *)
Theorem learn_sees_presale_inventory :
  (forall (week : Z) (g : Game) (inp : PlayerInput) (d : Draws),
      let w := week_body week g inp d in
      wk_realize_inventoryAvail w = (inventory (co g) + production (wk_chosen w))%Z /\
      wk_potential w
      = realizeDemand (mk (wk_game w)) (price (wk_chosen w)) (adSpend (wk_chosen w))
                      (wk_ev w) (wk_realize_inventoryAvail w) (d_demand d) /\
      ai (wk_game w) = learn (ai g) (wk_learn w) /\
      l_inventoryAvail (wk_learn w) = (inventory (co (wk_game w)) + wk_sold w)%Z /\
      l_inventoryAvail (wk_learn w) = wk_realize_inventoryAvail w) /\
  (forall (inputs : Z -> PlayerInput) (draws : Z -> Draws),
      Forall learn_on_presale (main inputs draws)).
Proof.
  split.
  - intros week g inp d w.
    destruct (week_body_calls week g inp d) as (Hre & Hpot & _ & _ & Hai & _ & Hl).
    destruct (week_body_presale week g inp d) as [Heq _].
    repeat split; assumption.
  - intros inputs draws. apply weeks_loop_presale.
Qed.

(** *** Stock in a game *)

Lemma choose_production_nonneg (plan : Plan) (inp : PlayerInput) :
  (0 <= production plan)%Z -> (0 <= production (choose plan inp))%Z.
Proof.
  intros Hp. destruct inp as [| p q r]; [exact Hp |].
  destruct p, q, r; cbn [choose production]; try exact Hp;
    apply clampv_int_range; lia.
Qed.

Lemma week_body_inventory_nonneg (week : Z) (g : Game) (inp : PlayerInput)
    (d : Draws) :
  (0 <= inventory (co g))%Z ->
  (0 <= inventory (co (wk_game (week_body week g inp d))))%Z.
Proof.
  intros Hinv.
  destruct (week_body_calls week g inp d) as (Hre & Hpot & Hsold & Hend & _).
  cbv zeta in *. rewrite Hend, Hsold, Hre, std_min_int.
  assert (Hprod : (0 <= production (wk_chosen (week_body week g inp d)))%Z).
  { unfold week_body. cbv zeta. cbn [wk_chosen].
    apply choose_production_nonneg.
    apply (suggest_search_bounds suggest_fuel). }
  lia.
Qed.

Lemma weeks_loop_inventory_nonneg (fuel : nat) (week weeks : Z) (g : Game)
    (inputs : Z -> PlayerInput) (draws : Z -> Draws) :
  (0 <= inventory (co g))%Z ->
  Forall (fun w => (0 <= inventory (co (wk_game w)))%Z)
         (weeks_loop fuel week weeks g inputs draws).
Proof.
  revert week g. induction fuel as [| fuel IH]; intros week g Hinv; cbn [weeks_loop].
  - constructor.
  - destruct (week <=? weeks)%Z; [| constructor].
    cbv zeta.
    pose proof (week_body_inventory_nonneg week g (inputs week) (draws week) Hinv) as Hw.
    constructor; [exact Hw |].
    destruct (Rlt_dec _ _); [constructor | apply IH; exact Hw].
Qed.

(** The stock is never negative at the end of a week of [main]. *)
Lemma main_inventory_nonneg (inputs : Z -> PlayerInput) (draws : Z -> Draws) :
  Forall (fun w => (0 <= inventory (co (wk_game w)))%Z) (main inputs draws).
Proof.
  apply weeks_loop_inventory_nonneg. cbn. lia.
Qed.

(** *** Sample evaluations *)

Example clampv_above : clampv 350 (-200) 300 = 300.
Proof. unfold_less. destruct (Rlt_dec 350 300); [lra |]. destruct (Rlt_dec (-200) 300); lra. Qed.

Example clampv_production : clampv 250%Z 0%Z 200%Z = 200%Z.
Proof. reflexivity. Qed.

Example choose_override :
  choose (mkPlan 20 1000 50) (Override (Some 55) None (Some (-3)%Z))
  = mkPlan 40 1000 0.
Proof.
  cbn [choose price adSpend production]. f_equal.
  unfold_less. destruct (Rlt_dec 55 40); [lra |]. destruct (Rlt_dec 9 40); lra.
Qed.

Example drawEvent_low : drawEvent 1 0.05 = viral_trend.
Proof. event_cases; first [reflexivity | lra]. Qed.

Example drawEvent_high : drawEvent 1 0.75 = nothing_special.
Proof. event_cases; first [reflexivity | lra]. Qed.

(** 60 - 1.4 * 20 + 9 * ln 1 + 0.08 * 90 = 39.2, and no noise: 39 units. *)
Example realizeDemand_quiet_week :
  realizeDemand new_market 20 0 nothing_special 90 0 = 39%Z.
Proof.
  unfold realizeDemand, log1p, normal_distribution. cbv zeta.
  cbn [baseDemand priceSensitivity adEffect noiseStd new_market
       baseShock adShock priceShock nothing_special].
  replace (1 + 0) with 1 by lra. rewrite ln_1, std_max_double.
  rewrite Rmax_right by lra. apply Zfloor_eq. lra.
Qed.

(** One recorded sale of 80 units and a proxy of 50: 0.7 * 50 + 0.3 * 80 = 59. *)
Example update_proxy_first_week :
  update_proxy [mkSnapshot 1 60 0 20 1000 50 80 10 1600 2600 (-1000)] 50 0 = 59.
Proof.
  rewrite update_proxy_mean. unfold mean, recent_sales, normal_distribution.
  cbn [List.length Nat.sub skipn map snap_sold sum_Z fold_right INR].
  rewrite Rmax_right; cbn [Z.add]; lra.
Qed.

(** ** Further properties *)

(** *** The loop over the weeks *)

Lemma week_body_state (week : Z) (g : Game) (inp : PlayerInput) (d : Draws) :
  let w := week_body week g inp d in
  let chosen := wk_chosen w in
  let snap :=
    mkSnapshot week (baseDemand (drift (mk g) (d_drift d))) (baseShock (wk_ev w))
               (price chosen) (adSpend chosen) (production chosen) (wk_sold w)
               (inventory (co g) + production chosen - wk_sold w)
               (IZR (wk_sold w) * price chosen)
               (IZR (production chosen) * unitCost (co g) + adSpend chosen
                + fixedCost (co g))
               (IZR (wk_sold w) * price chosen
                - (IZR (production chosen) * unitCost (co g) + adSpend chosen
                   + fixedCost (co g))) in
  wk_ev w = drawEvent week (d_event d) /\
  wk_plan w
  = suggest (ai g) (co g) (baseProxy g) (adShock (wk_ev w)) (priceShock (wk_ev w)) /\
  chosen = choose (wk_plan w) inp /\
  mk (wk_game w) = drift (mk g) (d_drift d) /\
  history (co (wk_game w)) = (history (co g) ++ [snap])%list /\
  cash (co (wk_game w)) = cash (co g) + snap_profit snap /\
  unitCost (co (wk_game w)) = unitCost (co g) /\
  fixedCost (co (wk_game w)) = fixedCost (co g) /\
  baseProxy (wk_game w)
  = update_proxy (history (co (wk_game w))) (baseProxy g) (d_proxy d).
Proof.
  cbv zeta. unfold week_body. cbv zeta.
  cbn [wk_ev wk_plan wk_chosen wk_sold wk_game mk co ai baseProxy history cash
       unitCost fixedCost snap_profit].
  repeat split; reflexivity.
Qed.

Section WeeksLoop.

Variable P : Game -> Prop.
Hypothesis P_week : forall week g inp d, P g -> P (wk_game (week_body week g inp d)).

Lemma weeks_loop_forall (fuel : nat) (week weeks : Z) (g : Game)
    (inputs : Z -> PlayerInput) (draws : Z -> Draws) :
  P g -> Forall (fun w => P (wk_game w)) (weeks_loop fuel week weeks g inputs draws).
Proof.
  revert week g. induction fuel as [| fuel IH]; intros week g Hg; cbn [weeks_loop].
  - constructor.
  - destruct (week <=? weeks)%Z; [| constructor].
    cbv zeta. pose proof (P_week week g (inputs week) (draws week) Hg) as Hw.
    constructor; [exact Hw |].
    destruct (Rlt_dec _ _); [constructor | apply IH; exact Hw].
Qed.

Lemma last_forall (l : list Week) (g : Game) :
  P g -> Forall (fun w => P (wk_game w)) l -> P (last (map wk_game l) g).
Proof.
  intros Hg Hl. induction Hl as [| w l Hw Hl IH]; [exact Hg |].
  destruct l as [| w' l]; [exact Hw | exact IH].
Qed.

Lemma main_forall (inputs : Z -> PlayerInput) (draws : Z -> Draws) :
  P new_game -> Forall (fun w => P (wk_game w)) (main inputs draws).
Proof. apply weeks_loop_forall. Qed.

Lemma final_game_inv (inputs : Z -> PlayerInput) (draws : Z -> Draws) :
  P new_game -> P (final_game inputs draws).
Proof.
  intros H0. apply last_forall; [exact H0 | apply main_forall; exact H0].
Qed.

End WeeksLoop.

Lemma sum_R_snoc (l : list R) (x : R) : sum_R (l ++ [x]) = sum_R l + x.
Proof.
  induction l as [| y l IH]; cbn; [lra |]. fold (sum_R (l ++ [x])). fold (sum_R l).
  rewrite IH. lra.
Qed.

Lemma sum_Z_snoc (l : list Z) (x : Z) : sum_Z (l ++ [x]) = (sum_Z l + x)%Z.
Proof.
  induction l as [| y l IH]; cbn; [lia |]. fold (sum_Z (l ++ [x])). fold (sum_Z l).
  rewrite IH. lia.
Qed.

Lemma summary_sums (c : Company) :
  totalProfit c = sum_R (map snap_profit (history c)) /\
  totalSales c = sum_Z (map snap_sold (history c)).
Proof.
  unfold totalProfit, totalSales, summary.
  induction (history c) as [| s h [IHp IHs]] using rev_ind; [cbn; split; [lra | lia] |].
  rewrite fold_left_app, !map_app. cbn [fold_left map fst snd].
  rewrite sum_R_snoc, sum_Z_snoc, IHp, IHs. split; reflexivity.
Qed.

Lemma choose_bounds (plan : Plan) (inp : PlayerInput) :
  in_grid_bounds plan -> in_player_bounds (choose plan inp).
Proof.
  intros (Hp & Ha & Hq). unfold in_player_bounds.
  destruct inp as [| p a q]; [cbn [choose]; repeat split; (lra || lia) |].
  assert (H9 : forall v : R, 9 <= clampv v 9 40 <= 40)
    by (intros v; apply clampv_range; lra).
  assert (H0 : forall v : R, 0 <= clampv v 0 10000 <= 10000)
    by (intros v; apply clampv_range; lra).
  assert (Hz : forall v : Z, (0 <= clampv v 0 200 <= 200)%Z)
    by (intros v; apply clampv_int_range; lia).
  destruct p as [p |], a as [a |], q as [q |]; cbn [choose price adSpend production];
    repeat split;
    first [ apply H9 | apply H0 | apply Hz | lra | lia ].
Qed.

Lemma week_body_chosen_bounds (week : Z) (g : Game) (inp : PlayerInput) (d : Draws) :
  in_grid_bounds (wk_plan (week_body week g inp d)) /\
  in_player_bounds (wk_chosen (week_body week g inp d)).
Proof.
  assert (Hplan : in_grid_bounds (wk_plan (week_body week g inp d))).
  { unfold week_body. cbv zeta. cbn [wk_plan].
    apply (suggest_search_bounds suggest_fuel). }
  split; [exact Hplan |].
  destruct (week_body_state week g inp d) as (_ & _ & Hch & _).
  cbv zeta in Hch. rewrite Hch. apply choose_bounds. exact Hplan.
Qed.

Lemma week_body_sold_bounds (week : Z) (g : Game) (inp : PlayerInput) (d : Draws) :
  let w := week_body week g inp d in
  (0 <= wk_potential w)%Z /\
  (wk_sold w <= wk_potential w)%Z /\
  (wk_sold w <= wk_realize_inventoryAvail w)%Z /\
  ((0 <= inventory (co g))%Z ->
   (0 <= wk_sold w)%Z /\ (0 <= wk_realize_inventoryAvail w)%Z).
Proof.
  intros w.
  destruct (week_body_calls week g inp d) as (Hre & Hpot & Hsold & _).
  destruct (week_body_chosen_bounds week g inp d) as (_ & _ & _ & Hq).
  fold w in Hre, Hpot, Hsold, Hq. cbv zeta in *.
  assert (H0 : (0 <= wk_potential w)%Z) by (rewrite Hpot; apply realizeDemand_nonneg).
  rewrite Hsold, std_min_int. repeat split; try lia.
Qed.

(** *** State kept over the weeks *)

(** X1. In every week of [main], and when the loop is left, the hidden baseline
    demand is at least 5 and the other four market parameters still have
    their starting values 1.4, 9, 0.2 and 6: [drift] is the only function that
    writes the market and it moves the baseline alone. *)
Theorem main_market_kept (inputs : Z -> PlayerInput) (draws : Z -> Draws) :
  Forall (fun w => market_ok (mk (wk_game w))) (main inputs draws) /\
  market_ok (mk (final_game inputs draws)).
Proof.
  assert (Hstep : forall week g inp d,
             market_ok (mk g) -> market_ok (mk (wk_game (week_body week g inp d)))).
  { intros week g inp d (_ & Hps & Hae & Hdd & Hns).
    destruct (week_body_state week g inp d) as (_ & _ & _ & Hmk & _).
    cbv zeta in Hmk. rewrite Hmk. unfold market_ok, drift. cbv zeta.
    cbn [baseDemand priceSensitivity adEffect demandDrift noiseStd].
    repeat split; try assumption. apply std_max_lower. }
  assert (H0 : market_ok (mk new_game)).
  { unfold market_ok; cbn. repeat split; lra. }
  split.
  - apply (main_forall (fun g => market_ok (mk g)) Hstep); exact H0.
  - apply (final_game_inv (fun g => market_ok (mk g)) Hstep); exact H0.
Qed.

(** X2. In every week of [main], and when the loop is left, the five weights
    of the advisor lie in their clamp ranges and the learning rate is still
    0.0015: the priors start inside the ranges and [learn], the only writer,
    clamps the weights and copies the rate. *)
Theorem main_advisor_kept (inputs : Z -> PlayerInput) (draws : Z -> Draws) :
  let ok := fun g => weights_in_range (ai g) /\ lr (ai g) = 0.0015 in
  Forall (fun w => ok (wk_game w)) (main inputs draws) /\
  ok (final_game inputs draws).
Proof.
  intros ok.
  assert (Hstep : forall week g inp d,
             ok g -> ok (wk_game (week_body week g inp d))).
  { intros week g inp d [_ Hlr].
    destruct (week_body_calls week g inp d) as (_ & _ & _ & _ & Hai & _).
    cbv zeta in Hai. unfold ok. rewrite Hai.
    split; [apply learn_in_range | exact Hlr]. }
  assert (H0 : ok new_game).
  { unfold ok, weights_in_range; cbn. repeat split; lra. }
  split.
  - apply (main_forall ok Hstep); exact H0.
  - apply (final_game_inv ok Hstep); exact H0.
Qed.

(** X3. Whatever the player types, the plan a week is played with has its
    price in [9, 40], its ad spend in [0, 10000] and its production in
    [0, 200]; the plan the advisor suggested lies in the narrower grid bounds,
    and accepting it plays it unchanged. *)
Theorem week_plan_in_player_bounds (week : Z) (g : Game) (inp : PlayerInput)
    (d : Draws) :
  let w := week_body week g inp d in
  in_player_bounds (wk_chosen w) /\
  in_grid_bounds (wk_plan w) /\
  wk_chosen (week_body week g Accept d) = wk_plan (week_body week g Accept d) /\
  wk_plan w = wk_plan (week_body week g Accept d).
Proof.
  intros w.
  destruct (week_body_chosen_bounds week g inp d) as [Hplan Hch].
  repeat split; try apply Hch; try apply Hplan.
Qed.

(** X4. The sale count handed to [learn] is censored by the stock: it never
    exceeds the availability handed to [learn] with it, it equals the
    realized demand when the stock covers the demand, and it equals the stock,
    below the demand, when the demand exceeds the stock. *)
Theorem learn_label_censored (week : Z) (g : Game) (inp : PlayerInput) (d : Draws) :
  let w := week_body week g inp d in
  (l_sold (wk_learn w) <= l_inventoryAvail (wk_learn w))%Z /\
  ((wk_potential w <= wk_realize_inventoryAvail w)%Z ->
   l_sold (wk_learn w) = wk_potential w) /\
  ((wk_realize_inventoryAvail w < wk_potential w)%Z ->
   l_sold (wk_learn w) = l_inventoryAvail (wk_learn w) /\
   (l_sold (wk_learn w) < wk_potential w)%Z).
Proof.
  intros w.
  destruct (week_body_calls week g inp d) as (_ & _ & Hsold & _ & _ & Hl & _).
  destruct (week_body_presale week g inp d) as [Heq _].
  fold w in Hsold, Hl, Heq. rewrite Hl, Heq, Hsold, std_min_int.
  repeat split; lia.
Qed.

(** *** Books *)

(** X5. At the end of every week of [main], and when the loop is left, the
    cash is the starting 20000 plus the profits recorded in the history; the
    [totalProfit] of the summary is therefore the final cash minus 20000. *)
Theorem main_cash_is_recorded_profit (inputs : Z -> PlayerInput) (draws : Z -> Draws) :
  Forall (fun w => cash (co (wk_game w)) = 20000 + totalProfit (co (wk_game w)))
         (main inputs draws) /\
  cash (co (final_game inputs draws))
  = 20000 + totalProfit (co (final_game inputs draws)).
Proof.
  set (ok := fun g => cash (co g) = 20000 + totalProfit (co g)).
  assert (Hstep : forall week g inp d,
             ok g -> ok (wk_game (week_body week g inp d))).
  { intros week g inp d Hg. unfold ok in *.
    destruct (summary_sums (co g)) as [Hp _]. rewrite Hp in Hg.
    destruct (summary_sums (co (wk_game (week_body week g inp d)))) as [Hp' _].
    rewrite Hp'.
    destruct (week_body_state week g inp d) as (_ & _ & _ & _ & Hh & Hc & _).
    cbv zeta in Hh, Hc. rewrite Hh, Hc, map_app. cbn [map].
    rewrite sum_R_snoc, Hg. ring. }
  assert (H0 : ok new_game) by (unfold ok; cbn; lra).
  split.
  - apply (main_forall ok Hstep); exact H0.
  - apply (final_game_inv ok Hstep); exact H0.
Qed.

(** X6. At the end of every week of [main], and when the loop is left, the
    stock is the starting 40 units plus the recorded productions minus the
    [totalSales] of the summary, and it is not negative: the units sold over
    a game never exceed the 40 units plus what was produced. *)
Theorem main_stock_is_conserved (inputs : Z -> PlayerInput) (draws : Z -> Draws) :
  let ok := fun g =>
    inventory (co g)
    = (40 + sum_Z (map snap_production (history (co g))) - totalSales (co g))%Z /\
    (totalSales (co g) <= 40 + sum_Z (map snap_production (history (co g))))%Z in
  Forall (fun w => ok (wk_game w)) (main inputs draws) /\
  ok (final_game inputs draws).
Proof.
  intros ok.
  assert (Hstep : forall week g inp d,
             ok g -> ok (wk_game (week_body week g inp d))).
  { intros week g inp d [Hg Hle]. unfold ok in *.
    destruct (summary_sums (co g)) as [_ Hs]. rewrite Hs in Hg, Hle.
    destruct (summary_sums (co (wk_game (week_body week g inp d)))) as [_ Hs'].
    rewrite Hs'.
    destruct (week_body_state week g inp d) as (_ & _ & _ & _ & Hh & _).
    destruct (week_body_calls week g inp d) as (Hre & _ & _ & Hinv & _).
    destruct (week_body_sold_bounds week g inp d) as (_ & _ & Hsold & _).
    cbv zeta in Hh, Hre, Hinv, Hsold.
    rewrite Hh, Hinv, !map_app. cbn [map snap_production snap_sold].
    rewrite !sum_Z_snoc. lia. }
  assert (H0 : ok new_game) by (unfold ok; cbn; lia).
  split.
  - apply (main_forall ok Hstep); exact H0.
  - apply (final_game_inv ok Hstep); exact H0.
Qed.

(** X7. Every snapshot in the history of [main] is consistent with the week
    it records: the plan lies in the player's ranges, the units sold and the
    stock left are not negative, the revenue is the units sold times the
    price, the cost is 8 per unit produced plus the ad spend plus 1200, the
    profit is the revenue minus the cost, and the hidden baseline recorded is
    at least 5. *)
Theorem main_snapshots_consistent (inputs : Z -> PlayerInput) (draws : Z -> Draws) :
  Forall (fun w => Forall snapshot_ok (history (co (wk_game w)))) (main inputs draws) /\
  Forall snapshot_ok (history (co (final_game inputs draws))).
Proof.
  set (ok := fun g => unitCost (co g) = 8 /\ fixedCost (co g) = 1200 /\
                      (0 <= inventory (co g))%Z /\
                      Forall snapshot_ok (history (co g))).
  assert (Hstep : forall week g inp d,
             ok g -> ok (wk_game (week_body week g inp d))).
  { intros week g inp d (Huc & Hfc & Hinv & Hh). unfold ok.
    destruct (week_body_state week g inp d)
      as (_ & _ & _ & _ & Hh' & _ & Huc' & Hfc' & _).
    destruct (week_body_chosen_bounds week g inp d) as (_ & Hp & Ha & Hq).
    destruct (week_body_sold_bounds week g inp d) as (_ & _ & Hle & Hnn).
    destruct (Hnn Hinv) as [Hsold Havail].
    destruct (week_body_calls week g inp d) as (Hre & _).
    cbv zeta in Hh', Huc', Hfc', Hle, Hsold, Havail, Hre.
    split; [congruence |]. split; [congruence |].
    split; [apply week_body_inventory_nonneg; exact Hinv |].
    rewrite Hh'. apply Forall_app. split; [exact Hh |].
    constructor; [| constructor].
    unfold snapshot_ok.
    cbn [snap_price snap_adSpend snap_production snap_sold snap_inventoryEnd
         snap_revenue snap_cost snap_profit snap_baseDemand].
    rewrite Huc, Hfc.
    repeat split; try (apply Hp || apply Ha || apply Hq); try lia.
    unfold drift. cbv zeta. cbn [baseDemand]. apply std_max_lower. }
  assert (H0 : ok new_game).
  { unfold ok; cbn. repeat split; try lra; try lia. constructor. }
  split.
  - assert (H := main_forall ok Hstep inputs draws H0).
    revert H. apply Forall_impl. intros w Hw. apply Hw.
  - apply (final_game_inv ok Hstep inputs draws H0).
Qed.

Lemma last_cons_default {A : Type} (x d : A) (l : list A) :
  last (x :: l) d = last l x.
Proof.
  revert x d. induction l as [| y l IH]; intros x d; [reflexivity |].
  change (last (x :: y :: l) d) with (last (y :: l) d).
  rewrite (IH y d), (IH y x). reflexivity.
Qed.

Lemma weeks_loop_history (fuel : nat) (week weeks : Z) (g : Game)
    (inputs : Z -> PlayerInput) (draws : Z -> Draws) :
  let l := weeks_loop fuel week weeks g inputs draws in
  map snap_week (history (co (last (map wk_game l) g)))
  = (map snap_week (history (co g)) ++ range_int week 1 (List.length l))%list.
Proof.
  revert week g. induction fuel as [| fuel IH]; intros week g; cbn [weeks_loop].
  - cbn. rewrite app_nil_r. reflexivity.
  - destruct (week <=? weeks)%Z; [| cbn; rewrite app_nil_r; reflexivity].
    cbv zeta.
    set (w := week_body week g (inputs week) (draws week)).
    assert (Hw : map snap_week (history (co (wk_game w)))
                 = (map snap_week (history (co g)) ++ [week])%list).
    { destruct (week_body_state week g (inputs week) (draws week))
        as (_ & _ & _ & _ & Hh & _).
      cbv zeta in Hh. fold w in Hh. rewrite Hh, map_app. reflexivity. }
    destruct (Rlt_dec _ _).
    + cbn [map last List.length range_int]. exact Hw.
    + cbn [map List.length range_int]. rewrite last_cons_default.
      specialize (IH (week + 1)%Z (wk_game w)). cbv zeta in IH.
      rewrite IH, Hw, <- app_assoc. reflexivity.
Qed.

Lemma range_int_length (n : nat) (i step : Z) :
  List.length (range_int i step n) = n.
Proof.
  revert i. induction n as [| n IH]; intros i; cbn; [reflexivity |].
  rewrite IH. reflexivity.
Qed.

(** X8. When the loop of [main] is left the history holds one snapshot per
    week played, in the order the weeks were played and numbered 1, 2, 3, and
    so on. *)
Theorem main_history_numbered (inputs : Z -> PlayerInput) (draws : Z -> Draws) :
  map snap_week (history (co (final_game inputs draws)))
  = range_int 1 1 (List.length (main inputs draws)) /\
  List.length (history (co (final_game inputs draws)))
  = List.length (main inputs draws).
Proof.
  assert (H : map snap_week (history (co (final_game inputs draws)))
              = range_int 1 1 (List.length (main inputs draws))).
  { unfold final_game, main.
    exact (weeks_loop_history 13 1 12 new_game inputs draws). }
  split; [exact H |].
  apply (f_equal (@List.length Z)) in H. rewrite length_map in H. rewrite H.
  apply range_int_length.
Qed.

(** *** Length of a game *)

Lemma week_cash_floor (week : Z) (g : Game) (inp : PlayerInput) (d : Draws) :
  unitCost (co g) = 8 -> fixedCost (co g) = 1200 -> (0 <= inventory (co g))%Z ->
  cash (co g) - 12800 <= cash (co (wk_game (week_body week g inp d))).
Proof.
  intros Huc Hfc Hinv.
  destruct (week_body_state week g inp d) as (_ & _ & _ & _ & _ & Hc & _).
  destruct (week_body_chosen_bounds week g inp d) as (_ & Hp & Ha & Hq).
  destruct (week_body_sold_bounds week g inp d) as (_ & _ & _ & Hnn).
  destruct (Hnn Hinv) as [Hsold _].
  cbv zeta in Hc, Hsold. rewrite Hc. cbn [snap_profit]. rewrite Huc, Hfc.
  set (w := week_body week g inp d) in *.
  apply IZR_le in Hsold. destruct Hq as [_ Hq]. apply IZR_le in Hq.
  assert (Hrev : 0 <= IZR (wk_sold w) * price (wk_chosen w))
    by (apply Rmult_le_pos; lra).
  lra.
Qed.

(** X10. A week played from a game with a unit cost of 8, an overhead of 1200
    and a stock that is not negative lowers the cash by at most 12800 (200
    units at 8, an ad spend of 10000 and the overhead), whatever the player
    types and whatever the draws. *)
Theorem week_loss_bounded (week : Z) (g : Game) (inp : PlayerInput) (d : Draws) :
  unitCost (co g) = 8 -> fixedCost (co g) = 1200 -> (0 <= inventory (co g))%Z ->
  cash (co g) - 12800 <= cash (co (wk_game (week_body week g inp d))).
Proof. apply week_cash_floor. Qed.

Lemma week_loss_bounded_witness :
  unitCost (co new_game) = 8 /\ fixedCost (co new_game) = 1200 /\
  (0 <= inventory (co new_game))%Z /\
  cash (co new_game) - 12800
  <= cash (co (wk_game (week_body 1 new_game Accept (mkDraws 0 0.5 0 0)))).
Proof.
  assert (Huc : unitCost (co new_game) = 8) by reflexivity.
  assert (Hfc : fixedCost (co new_game) = 1200) by reflexivity.
  assert (Hinv : (0 <= inventory (co new_game))%Z) by (cbn; lia).
  repeat split; try assumption.
  exact (week_loss_bounded 1 new_game Accept (mkDraws 0 0.5 0 0) Huc Hfc Hinv).
Defined.

(** *** Learning step *)

(** X12. A call of [learn] whose error [sold - yhat] is zero leaves an advisor
    whose weights lie in the clamp ranges exactly as it was. *)
Theorem learn_fixed_at_zero_error (a : AIAdvisor) (c : LearnCall) :
  weights_in_range a -> learn_err a c = 0 -> learn a c = a.
Proof.
  intros (H0 & HP & HA & HB & HI) Herr.
  unfold learn_err in Herr. cbv zeta in Herr.
  destruct a as [a0 aP aA aB aI alr]. cbn [w0 wP wA wB wI lr] in *.
  unfold learn. cbv zeta. cbn [w0 wP wA wB wI lr].
  rewrite Herr.
  f_equal; (rewrite clampv_id by lra); lra.
Qed.

Lemma learn_fixed_at_zero_error_witness :
  weights_in_range (mkAdvisor 0 0 0 0 0 0.0015) /\
  learn_err (mkAdvisor 0 0 0 0 0 0.0015) (mkLearnCall 20 1000 50 60 0 0 0) = 0 /\
  learn (mkAdvisor 0 0 0 0 0 0.0015) (mkLearnCall 20 1000 50 60 0 0 0)
  = mkAdvisor 0 0 0 0 0 0.0015.
Proof.
  assert (Hr : weights_in_range (mkAdvisor 0 0 0 0 0 0.0015)).
  { unfold weights_in_range; cbn. repeat split; lra. }
  assert (He : learn_err (mkAdvisor 0 0 0 0 0 0.0015)
                         (mkLearnCall 20 1000 50 60 0 0 0) = 0).
  { unfold learn_err; cbn. ring. }
  split; [exact Hr |]. split; [exact He |].
  exact (learn_fixed_at_zero_error _ _ Hr He).
Defined.

(** X13. With a learning rate that is not negative and [w0] inside
    [-200, 300], [learn] never moves [w0] against the error: a positive or
    zero error does not lower it, a negative or zero error does not raise it;
    and it never moves it further than [lr * |err|]. *)
Theorem learn_moves_w0_with_error (a : AIAdvisor) (c : LearnCall) :
  0 <= lr a -> -200 <= w0 a <= 300 ->
  (0 <= learn_err a c ->
   w0 a <= w0 (learn a c) <= w0 a + lr a * learn_err a c) /\
  (learn_err a c <= 0 ->
   w0 a + lr a * learn_err a c <= w0 (learn a c) <= w0 a).
Proof.
  intros Hlr Hw. rewrite learn_w0.
  set (e := learn_err a c).
  split; intros He.
  - assert (Hstep : 0 <= lr a * e) by (apply Rmult_le_pos; assumption).
    unfold_less.
    destruct (Rlt_dec (w0 a + lr a * e * 1) 300); destruct (Rlt_dec (-200) _); lra.
  - assert (Hstep : 0 <= lr a * - e) by (apply Rmult_le_pos; lra).
    unfold_less.
    destruct (Rlt_dec (w0 a + lr a * e * 1) 300); destruct (Rlt_dec (-200) _); lra.
Qed.

Lemma learn_moves_w0_with_error_witness :
  0 <= lr new_advisor /\ -200 <= w0 new_advisor <= 300 /\
  (learn_err new_advisor scenario_call <= 0 ->
   w0 (learn new_advisor scenario_call) <= w0 new_advisor).
Proof.
  assert (Hlr : 0 <= lr new_advisor) by (cbn; lra).
  assert (Hw : -200 <= w0 new_advisor <= 300) by (cbn; lra).
  split; [exact Hlr |]. split; [exact Hw |].
  intros He.
  apply (proj2 (learn_moves_w0_with_error new_advisor scenario_call Hlr Hw) He).
Defined.

(** X14. The error of [learn] is taken against the linear combination before
    it is floored: it is never below [sold - predict], it equals
    [sold - predict] when the combination is not negative, and it exceeds
    [sold] by the size of the combination when that is negative (where
    [predict] answers 0). *)
Theorem learn_error_is_unfloored (a : AIAdvisor) (c : LearnCall) :
  let yhat := IZR (l_sold c) - learn_err a c in
  let p := predict a (l_price c) (l_ad c) (l_baseProxy c) (l_inventoryAvail c)
                   (l_eventAdMult c) (l_eventPriceMult c) in
  IZR (l_sold c) - p <= learn_err a c /\
  (0 <= yhat -> learn_err a c = IZR (l_sold c) - p) /\
  (yhat < 0 -> p = 0 /\ IZR (l_sold c) < learn_err a c).
Proof.
  intros yhat p. unfold p. rewrite predict_yhat. fold yhat.
  assert (Hy : yhat = IZR (l_sold c) - learn_err a c) by reflexivity.
  clearbody yhat. unfold_less.
  destruct (Rlt_dec 0 yhat); repeat split; intros; lra.
Qed.

(** *** Search *)

Lemma start_plan_in_grid : In (mkPlan 20 1000 50) grid.
Proof.
  unfold grid. apply in_flat_map. exists 20. split.
  - cbn [range_double In]. do 11 right. left. lra.
  - apply in_flat_map. exists 1000. split.
    + cbn [range_double In]. do 2 right. left. lra.
    + cbn [range_int map In]. do 5 right. left. reflexivity.
Qed.

Lemma search_over_in (a : AIAdvisor) (c : Company) (bp am pm : R) (l : list Plan) :
  best (search_over a c bp am pm l) = best search_init \/
  In (best (search_over a c bp am pm l)) l.
Proof.
  induction l as [| p l IH] using rev_ind; [left; reflexivity |].
  rewrite search_over_snoc.
  destruct (Rgt_dec _ _).
  - right. cbn [best]. apply in_or_app. right. left. reflexivity.
  - destruct IH as [IH | IH]; [left; exact IH |].
    right. apply in_or_app. left. exact IH.
Qed.

Lemma range_double_length (n : nat) (x step : R) :
  List.length (range_double x step n) = n.
Proof.
  revert x. induction n as [| n IH]; intros x; cbn; [reflexivity |].
  rewrite IH. reflexivity.
Qed.

Lemma flat_map_length_const {A B : Type} (f : A -> list B) (l : list A) (n : nat) :
  (forall x, List.length (f x) = n) ->
  List.length (flat_map f l) = (List.length l * n)%nat.
Proof.
  intros Hf. induction l as [| x l IH]; cbn; [reflexivity |].
  rewrite length_app, Hf, IH. reflexivity.
Qed.

(** X15. The plan returned by [suggest] is always one of the 32 * 17 * 13
    points of the grid: a price 9, 10, up to 40, an ad spend 0, 500, up to
    8000 and a production 0, 10, up to 120; the plan the search starts from,
    (20, 1000, 50), is itself one of them. *)
Theorem suggest_returns_grid_point (a : AIAdvisor) (c : Company) (bp am pm : R) :
  In (suggest a c bp am pm) grid /\ List.length grid = (32 * 17 * 13)%nat.
Proof.
  split.
  - unfold suggest. rewrite suggest_search_grid by (unfold suggest_fuel; lia).
    destruct (search_over_in a c bp am pm grid) as [H | H]; [| exact H].
    rewrite H. exact start_plan_in_grid.
  - unfold grid.
    rewrite (flat_map_length_const _ _ (17 * 13)), range_double_length; [lia |].
    intros price.
    rewrite (flat_map_length_const _ _ 13), range_double_length; [reflexivity |].
    intros ad. rewrite length_map. apply range_int_length.
Qed.

Lemma first_point_profit (a : AIAdvisor) (c : Company) (bp am pm : R) :
  (0 <= inventory c)%Z ->
  - fixedCost c <= predicted_profit a c bp am pm (mkPlan 9 0 0).
Proof.
  intros Hinv. unfold predicted_profit. cbv zeta. cbn [price adSpend production].
  set (demandHat := predict a 9 0 bp (inventory c + 0) am pm).
  assert (Hsell : (0 <= std_min (round_int demandHat) (inventory c + 0)%Z)%Z).
  { pose proof (round_int_nonneg demandHat (predict_nonneg _ _ _ _ _ _ _)).
    rewrite std_min_int. lia. }
  apply IZR_le in Hsell.
  set (canSell := IZR (std_min (round_int demandHat) (inventory c + 0)%Z)) in *.
  lra.
Qed.

(** *** Realized demand *)

Lemma floored_demand_mono (mu1 mu2 n : R) :
  mu1 <= mu2 ->
  Z.le (Zfloor (std_max 0 (mu1 + n) + 0.5)) (Zfloor (std_max 0 (mu2 + n) + 0.5)).
Proof.
  intros Hmu. apply Zfloor_le. rewrite !std_max_double.
  pose proof (Rle_max_compat_l (mu1 + n) (mu2 + n) 0 ltac:(lra)). lra.
Qed.

Lemma ln_mono (x y : R) : 0 < x -> x <= y -> ln x <= ln y.
Proof.
  intros Hx [Hlt | ->]; [left; apply ln_increasing; assumption | right; reflexivity].
Qed.

(** Before its conversion to [int], the rounded demand never falls when more
    stock is on sale. *)
Lemma realizeDemand_grows_with_stock (m : Market) (price adSpend : R)
    (ev : MarketEvent) (rng_z : R) (i1 i2 : Z) :
  (i1 <= i2)%Z ->
  (realizeDemand m price adSpend ev i1 rng_z
   <= realizeDemand m price adSpend ev i2 rng_z)%Z.
Proof.
  intros Hi. unfold realizeDemand. cbv zeta.
  apply floored_demand_mono. apply IZR_le in Hi. lra.
Qed.

(** Before its conversion to [int], the rounded demand never falls when the
    price is not higher and the ad spend is not lower. *)
Lemma realizeDemand_follows_plan (m : Market) (ev : MarketEvent)
    (inventoryAvail : Z) (rng_z p1 p2 a1 a2 : R) :
  0 <= priceSensitivity m -> 0 <= adEffect m ->
  -1 <= priceShock ev -> -1 <= adShock ev ->
  p1 <= p2 -> 0 <= a1 <= a2 ->
  (realizeDemand m p2 a1 ev inventoryAvail rng_z
   <= realizeDemand m p1 a2 ev inventoryAvail rng_z)%Z.
Proof.
  intros Hps Hae Hpm Ham Hp Ha. unfold realizeDemand, log1p. cbv zeta.
  apply floored_demand_mono.
  assert (Hln : ln (1 + a1) <= ln (1 + a2)) by (apply ln_mono; lra).
  assert (Hprice : priceSensitivity m * p1 * (1 + priceShock ev)
                   <= priceSensitivity m * p2 * (1 + priceShock ev)).
  { apply Rmult_le_compat_r; [lra |]. apply Rmult_le_compat_l; assumption. }
  assert (Had : adEffect m * ln (1 + a1) * (1 + adShock ev)
                <= adEffect m * ln (1 + a2) * (1 + adShock ev)).
  { apply Rmult_le_compat_r; [lra |]. apply Rmult_le_compat_l; assumption. }
  lra.
Qed.

(** *** Public proxy, events and clamp *)

Lemma recent_sales_app (older recent : list Snapshot) :
  (3 <= List.length recent)%nat ->
  recent_sales (older ++ recent) = recent_sales recent.
Proof.
  intros Hlen. unfold recent_sales.
  rewrite length_app, skipn_app.
  rewrite (@skipn_all2 _ (List.length older + List.length recent - 3)%nat older)
    by lia.
  cbn [app]. do 2 f_equal. lia.
Qed.

(** X19. The proxy update looks at the last three snapshots only: once three
    or more weeks are recorded, whatever was recorded before them does not
    change the new proxy. *)
Theorem update_proxy_forgets_old (older recent : list Snapshot) (p rng_z : R) :
  (3 <= List.length recent)%nat ->
  update_proxy (older ++ recent) p rng_z = update_proxy recent p rng_z.
Proof.
  intros Hlen. rewrite !update_proxy_mean, recent_sales_app by exact Hlen.
  reflexivity.
Qed.

Lemma update_proxy_forgets_old_witness :
  (3 <= List.length [mkSnapshot 2 60 0 20 1000 50 30 10 0 0 0;
                     mkSnapshot 3 60 0 20 1000 50 40 10 0 0 0;
                     mkSnapshot 4 60 0 20 1000 50 50 10 0 0 0])%nat /\
  update_proxy ([mkSnapshot 1 60 0 20 1000 50 900 10 0 0 0]
                ++ [mkSnapshot 2 60 0 20 1000 50 30 10 0 0 0;
                    mkSnapshot 3 60 0 20 1000 50 40 10 0 0 0;
                    mkSnapshot 4 60 0 20 1000 50 50 10 0 0 0]) 50 0
  = update_proxy [mkSnapshot 2 60 0 20 1000 50 30 10 0 0 0;
                  mkSnapshot 3 60 0 20 1000 50 40 10 0 0 0;
                  mkSnapshot 4 60 0 20 1000 50 50 10 0 0 0] 50 0.
Proof.
  assert (H : (3 <= List.length [mkSnapshot 2 60 0 20 1000 50 30 10 0 0 0;
                                 mkSnapshot 3 60 0 20 1000 50 40 10 0 0 0;
                                 mkSnapshot 4 60 0 20 1000 50 50 10 0 0 0])%nat)
    by (cbn [List.length]; lia).
  split; [exact H |].
  exact (update_proxy_forgets_old
           [mkSnapshot 1 60 0 20 1000 50 900 10 0 0 0] _ 50 0 H).
Defined.

(** X20. Whatever the draw, also outside [0, 1), [drawEvent] returns one of
    its five events: the first one below 0 and the last one from 1 on; the
    base shock lies in [-15, 20] and both multipliers [1 + adShock] and
    [1 + priceShock] are positive, so no event reverses the effect of the
    price or of the ad spend. *)
Theorem drawEvent_any_draw (week : Z) (rng_u : R) :
  let ev := drawEvent week rng_u in
  In ev events /\
  -15 <= baseShock ev <= 20 /\
  0 < 1 + adShock ev /\ 0 < 1 + priceShock ev /\
  (rng_u < 0 -> ev = viral_trend) /\
  (1 <= rng_u -> ev = nothing_special).
Proof.
  cbv zeta. event_cases;
    (split; [cbn; tauto |]);
    repeat split; try (cbn; lra); intros; first [reflexivity | exfalso; lra].
Qed.

(** X21. On binary64 values, between bounds that are numbers with [lo < hi],
    [clampv] returns a value between the bounds whatever value it is given,
    NaN and the two infinities included; NaN and plus infinity give [hi]. *)
Theorem clampv_binary64_total (v lo hi : float) :
  PrimFloat.leb lo lo = true -> PrimFloat.ltb lo hi = true ->
  PrimFloat.leb hi hi = true ->
  PrimFloat.leb lo (clampv v lo hi) = true /\
  PrimFloat.leb (clampv v lo hi) hi = true /\
  clampv PrimFloat.nan lo hi = hi /\
  clampv PrimFloat.infinity lo hi = hi.
Proof.
  intros Hlo Hlt Hhi.
  destruct (clampv_binary64_range v lo hi Hlo (ltb_leb lo hi Hlt) Hhi) as [H1 H2].
  split; [exact H1 |]. split; [exact H2 |].
  assert (Hnan : PrimFloat.ltb PrimFloat.nan hi = false).
  { rewrite ltb_spec. reflexivity. }
  assert (Hinf : PrimFloat.ltb PrimFloat.infinity hi = false).
  { rewrite ltb_spec. change (Prim2SF PrimFloat.infinity) with (S754_infinity false).
    unfold SFltb, SFcompare. destruct (Prim2SF hi) as [s | s | | s m e];
      try destruct s; reflexivity. }
  unfold clampv, std_max, std_min. cbn [less less_dec Less_binary64].
  rewrite Hnan, Hinf.
  destruct (bool_dec false true) as [Hft | _]; [discriminate Hft |].
  destruct (bool_dec (PrimFloat.ltb lo hi) true) as [_ | Hn]; [| contradiction].
  split; reflexivity.
Qed.

Lemma clampv_binary64_total_witness :
  PrimFloat.leb (-200)%float (-200)%float = true /\
  PrimFloat.ltb (-200)%float 300%float = true /\
  PrimFloat.leb 300%float 300%float = true /\
  PrimFloat.leb (-200)%float (clampv PrimFloat.nan (-200)%float 300%float) = true.
Proof.
  assert (H1 : PrimFloat.leb (-200)%float (-200)%float = true) by reflexivity.
  assert (H2 : PrimFloat.ltb (-200)%float 300%float = true) by reflexivity.
  assert (H3 : PrimFloat.leb 300%float 300%float = true) by reflexivity.
  split; [exact H1 |]. split; [exact H2 |]. split; [exact H3 |].
  exact (proj1 (clampv_binary64_total PrimFloat.nan (-200)%float 300%float H1 H2 H3)).
Defined.

(** X22. Between bounds with [lo <= hi], [clampv] on real values is monotone
    and idempotent, and it saturates: a value below [lo] gives [lo], a value
    above [hi] gives [hi], a value in between is returned as it is. *)
Theorem clampv_saturates (lo hi v1 v2 : R) :
  lo <= hi -> v1 <= v2 ->
  clampv v1 lo hi <= clampv v2 lo hi /\
  clampv (clampv v1 lo hi) lo hi = clampv v1 lo hi /\
  (v1 <= lo -> clampv v1 lo hi = lo) /\
  (hi <= v2 -> clampv v2 lo hi = hi) /\
  (lo <= v1 <= hi -> clampv v1 lo hi = v1).
Proof.
  intros Hlh Hv.
  pose proof (clampv_range v1 lo hi Hlh) as Hr.
  split; [| split; [apply clampv_id; exact Hr |]].
  - clear Hr. unfold_less.
    destruct (Rlt_dec v1 hi); destruct (Rlt_dec v2 hi);
      repeat match goal with
             | |- context [if Rlt_dec ?x ?y then _ else _] => destruct (Rlt_dec x y)
             end; lra.
  - clear Hr. repeat split; intros H; unfold_less;
      destruct (Rlt_dec v1 hi); destruct (Rlt_dec v2 hi);
      repeat match goal with
             | |- context [if Rlt_dec ?x ?y then _ else _] => destruct (Rlt_dec x y)
             end; lra.
Qed.

Lemma clampv_saturates_witness :
  -200 <= 300 /\ -250 <= 350 /\
  clampv (-250) (-200) 300 <= clampv 350 (-200) 300.
Proof.
  assert (H1 : -200 <= 300) by lra.
  assert (H2 : -250 <= 350) by lra.
  split; [exact H1 |]. split; [exact H2 |].
  exact (proj1 (clampv_saturates (-200) 300 (-250) 350 H1 H2)).
Defined.

(** X23. With the bounds swapped, [hi < lo], [clampv] on real values returns
    [lo] whatever it is given. *)
Theorem clampv_swapped_bounds (v lo hi : R) :
  hi < lo -> clampv v lo hi = lo.
Proof.
  intros H. unfold_less.
  destruct (Rlt_dec v hi); destruct (Rlt_dec lo _); lra.
Qed.

Lemma clampv_swapped_bounds_witness :
  5 < 10 /\ clampv 7 10 5 = 10.
Proof.
  assert (H : 5 < 10) by lra.
  split; [exact H | exact (clampv_swapped_bounds 7 10 5 H)].
Defined.

(** X24. The public proxy is never negative during a game: it starts at 50
    and every update floors it at zero, whatever the sales and the noise. *)
Theorem main_proxy_nonneg (inputs : Z -> PlayerInput) (draws : Z -> Draws) :
  Forall (fun w => 0 <= baseProxy (wk_game w)) (main inputs draws) /\
  0 <= baseProxy (final_game inputs draws).
Proof.
  assert (Hstep : forall week g inp d,
             0 <= baseProxy g -> 0 <= baseProxy (wk_game (week_body week g inp d))).
  { intros week g inp d _.
    destruct (week_body_state week g inp d) as (_ & _ & _ & _ & _ & _ & _ & _ & Hp).
    cbv zeta in Hp. rewrite Hp. unfold update_proxy. cbv zeta. apply std_max_lower. }
  assert (H0 : 0 <= baseProxy new_game) by (cbn [baseProxy new_game]; lra).
  split.
  - apply (main_forall (fun g => 0 <= baseProxy g) Hstep); exact H0.
  - apply (final_game_inv (fun g => 0 <= baseProxy g) Hstep); exact H0.
Qed.

(** ** The conversion to [int] *)

Lemma Zceil_IZR (z : Z) : Zceil (IZR z) = z.
Proof. unfold Zceil. rewrite ZfloorNZ. lia. Qed.

Lemma int_of_double_exact (z : Z) :
  (INT_MIN <= z <= INT_MAX)%Z -> int_of_double (IZR z) = z.
Proof.
  intros [Hlo Hhi]. unfold int_of_double. cbv zeta.
  assert (Ht : (if Rle_dec 0 (IZR z) then Zfloor (IZR z) else Zceil (IZR z)) = z).
  { destruct (Rle_dec 0 (IZR z)); [apply ZfloorZ | apply Zceil_IZR]. }
  rewrite Ht.
  apply Z.leb_le in Hlo. apply Z.leb_le in Hhi. rewrite Hlo, Hhi. reflexivity.
Qed.

Lemma int_of_double_overflow (z : Z) :
  (INT_MAX < z)%Z -> int_of_double (IZR z) = INT_MIN.
Proof.
  intros Hz. unfold int_of_double. cbv zeta.
  assert (Ht : (if Rle_dec 0 (IZR z) then Zfloor (IZR z) else Zceil (IZR z)) = z).
  { destruct (Rle_dec 0 (IZR z)); [apply ZfloorZ | apply Zceil_IZR]. }
  rewrite Ht.
  apply Z.leb_gt in Hz. rewrite Hz, andb_false_r. reflexivity.
Qed.

Lemma realizeDemand_int_cast (m : Market) (price adSpend : R) (ev : MarketEvent)
    (inventoryAvail : Z) (rng_z : R) :
  realizeDemand_int m price adSpend ev inventoryAvail rng_z
  = int_of_double (IZR (realizeDemand m price adSpend ev inventoryAvail rng_z)).
Proof. reflexivity. Qed.

(** As long as the rounded demand fits an [int], the conversion changes
    nothing. *)
Lemma realizeDemand_int_fits (m : Market) (price adSpend : R) (ev : MarketEvent)
    (inventoryAvail : Z) (rng_z : R) :
  (realizeDemand m price adSpend ev inventoryAvail rng_z <= INT_MAX)%Z ->
  realizeDemand_int m price adSpend ev inventoryAvail rng_z
  = realizeDemand m price adSpend ev inventoryAvail rng_z.
Proof.
  intros Hfit. rewrite realizeDemand_int_cast. apply int_of_double_exact.
  pose proof (realizeDemand_nonneg m price adSpend ev inventoryAvail rng_z).
  unfold INT_MIN. lia.
Qed.

Lemma ln_1p_le (x : R) : 0 <= x -> 0 <= ln (1 + x) <= x.
Proof.
  intros Hx. split.
  - rewrite <- ln_1. apply ln_mono; lra.
  - rewrite <- (ln_exp x) at 2. apply ln_mono; [lra | apply exp_ineq1_le].
Qed.

(** In the ranges of a game (the market of [main] with a baseline up to
    [1e8], one of the five events, a plan in the player's ranges, a stock up
    to a million units and a noise within [1e8] of zero) the rounded demand
    fits an [int]. *)
Lemma realizeDemand_fits_in_game (m : Market) (price adSpend : R)
    (ev : MarketEvent) (inventoryAvail : Z) (rng_z : R) :
  market_ok m -> baseDemand m <= 1e8 -> In ev events ->
  9 <= price <= 40 -> 0 <= adSpend <= 10000 ->
  (0 <= inventoryAvail <= 1000000)%Z ->
  -1e8 <= normal_distribution 0 (noiseStd m) rng_z <= 1e8 ->
  (realizeDemand m price adSpend ev inventoryAvail rng_z <= INT_MAX)%Z.
Proof.
  intros (Hb & Hps & Hae & _ & _) Hbase Hev Hprice Had [Hi0 Hi1] Hn.
  unfold realizeDemand, log1p. cbv zeta.
  set (noise := normal_distribution 0 (noiseStd m) rng_z) in *.
  pose proof (ln_1p_le adSpend (proj1 Had)) as [Hl0 Hl1].
  set (L := ln (1 + adSpend)) in *.
  apply IZR_le in Hi0, Hi1.
  set (inv := IZR inventoryAvail) in *.
  rewrite Hps, Hae, std_max_double.
  assert (Hmu : Rmax 0 (baseDemand m + baseShock ev - 1.4 * price * (1 + priceShock ev)
                        + 9 * L * (1 + adShock ev) + 0.08 * inv + noise) + 0.5
                < 2147483647).
  { apply Rmax_case_strong; intros _; [lra |].
    assert (HL : 0 <= 9 * L <= 90000) by lra.
    assert (HP : 0 <= 1.4 * price <= 56) by lra.
    set (l9 := 9 * L) in *. set (p14 := 1.4 * price) in *.
    cbn [events In] in Hev.
    destruct Hev as [<- | [<- | [<- | [<- | [<- | []]]]]];
      cbn [baseShock adShock priceShock viral_trend new_competitor supply_news
           macro_slump nothing_special]; lra. }
  match goal with
  | |- (Zfloor ?x <= _)%Z => pose proof (Zfloor_bound x) as [Hf _]
  end.
  apply le_IZR. unfold INT_MAX. lra.
Qed.

Lemma realizeDemand_overflow_value :
  realizeDemand new_market (-1e10) 0 nothing_special (0 + 0) 0 = 14000000060%Z.
Proof.
  unfold realizeDemand, log1p, normal_distribution. cbv zeta.
  cbn [baseDemand priceSensitivity adEffect noiseStd new_market
       baseShock adShock priceShock nothing_special].
  change (0 + 0)%Z with 0%Z.
  replace (1 + 0) with 1 by lra. rewrite ln_1, std_max_double.
  rewrite Rmax_right by lra. apply Zfloor_eq. lra.
Qed.

(** C4 (as stated, refuted). At the price -1e10 (no ad spend, the neutral
    event, no stock, no production, no noise) the rounded demand 14000000060
    does not fit an [int]: [realizeDemand] returns [INT_MIN], which is
    negative, and so are the units sold computed from it. *)
Lemma realizeDemand_negative_on_overflow :
  ~ ((0 <= 0)%Z -> (0 <= 0)%Z ->
     let output := realizeDemand_int new_market (-1e10) 0 nothing_special (0 + 0) 0 in
     let sold := std_min output (0 + 0)%Z in
     (0 <= output)%Z /\ (sold <= 0 + 0)%Z /\ (0 <= sold)%Z /\ (0 <= 0 + 0 - sold)%Z).
Proof.
  intros H. specialize (H ltac:(lia) ltac:(lia)). cbv zeta in H.
  destruct H as [H _]. revert H.
  rewrite realizeDemand_int_cast, realizeDemand_overflow_value.
  rewrite int_of_double_overflow by (unfold INT_MAX; lia).
  unfold INT_MIN. lia.
Qed.

(** C4 (amended). With [I >= 0] units in stock and [P >= 0] units produced,
    [I + P] being an [int], and for every market, price, ad spend, event and
    noise draw for which the demand, floored at zero and rounded, fits an
    [int], [realizeDemand] returns a non-negative integer; the units sold,
    [min(output, I + P)], are at most [I + P] and not negative, so the stock
    left, [I + P - sold], is not negative. *)
Theorem realizeDemand_int_sold_bounds (m : Market) (price adSpend : R)
    (ev : MarketEvent) (rng_z : R) (I P : Z) :
  (0 <= I)%Z -> (0 <= P)%Z -> (I + P <= INT_MAX)%Z ->
  (realizeDemand m price adSpend ev (I + P) rng_z <= INT_MAX)%Z ->
  let output := realizeDemand_int m price adSpend ev (I + P) rng_z in
  let sold := std_min output (I + P)%Z in
  (0 <= output <= INT_MAX)%Z /\ (sold <= I + P)%Z /\ (0 <= sold)%Z /\
  (0 <= I + P - sold)%Z.
Proof.
  intros HI HP Hsum Hfit output sold.
  assert (Hout : (0 <= output <= INT_MAX)%Z).
  { unfold output. rewrite realizeDemand_int_fits by exact Hfit.
    split; [apply realizeDemand_nonneg | exact Hfit]. }
  unfold sold. rewrite std_min_int. lia.
Qed.

Lemma realizeDemand_int_sold_bounds_witness :
  (0 <= 40)%Z /\ (0 <= 50)%Z /\ (40 + 50 <= INT_MAX)%Z /\
  (realizeDemand new_market 20 0 nothing_special (40 + 50) 0 <= INT_MAX)%Z /\
  (0 <= std_min (realizeDemand_int new_market 20 0 nothing_special (40 + 50) 0)
                (40 + 50)%Z)%Z.
Proof.
  assert (HI : (0 <= 40)%Z) by lia.
  assert (HP : (0 <= 50)%Z) by lia.
  assert (Hsum : (40 + 50 <= INT_MAX)%Z) by (unfold INT_MAX; lia).
  assert (Hfit : (realizeDemand new_market 20 0 nothing_special (40 + 50) 0
                  <= INT_MAX)%Z).
  { change (40 + 50)%Z with 90%Z. rewrite realizeDemand_quiet_week.
    unfold INT_MAX. lia. }
  split; [exact HI |]. split; [exact HP |]. split; [exact Hsum |].
  split; [exact Hfit |].
  exact (proj1 (proj2 (proj2
    (realizeDemand_int_sold_bounds new_market 20 0 nothing_special 0 40 50
       HI HP Hsum Hfit)))).
Defined.

(** X17. Realized demand never falls when more stock is on sale, as long as
    the demand at the larger stock fits an [int]: with the market, the
    price, the ad spend, the event and the noise draw fixed, a larger
    availability then gives a demand at least as large. *)
Theorem realizeDemand_int_grows_with_stock (m : Market) (price adSpend : R)
    (ev : MarketEvent) (rng_z : R) (i1 i2 : Z) :
  (i1 <= i2)%Z ->
  (realizeDemand m price adSpend ev i2 rng_z <= INT_MAX)%Z ->
  (realizeDemand_int m price adSpend ev i1 rng_z
   <= realizeDemand_int m price adSpend ev i2 rng_z)%Z.
Proof.
  intros Hi Hfit.
  pose proof (realizeDemand_grows_with_stock m price adSpend ev rng_z i1 i2 Hi) as Hle.
  rewrite !realizeDemand_int_fits by lia. exact Hle.
Qed.

Lemma realizeDemand_int_grows_with_stock_witness :
  (40 <= 90)%Z /\
  (realizeDemand new_market 20 0 nothing_special 90 0 <= INT_MAX)%Z /\
  (realizeDemand_int new_market 20 0 nothing_special 40 0
   <= realizeDemand_int new_market 20 0 nothing_special 90 0)%Z.
Proof.
  assert (H : (40 <= 90)%Z) by lia.
  assert (Hfit : (realizeDemand new_market 20 0 nothing_special 90 0 <= INT_MAX)%Z).
  { rewrite realizeDemand_quiet_week. unfold INT_MAX. lia. }
  split; [exact H |]. split; [exact Hfit |].
  exact (realizeDemand_int_grows_with_stock new_market 20 0 nothing_special 0 40 90
           H Hfit).
Defined.

(** X18. In a market whose price sensitivity and ad effect are not negative,
    under an event whose two multipliers [1 + shock] are not negative, a
    price that is not higher together with an ad spend that is not lower
    never gives a lower realized demand (same stock, same noise draw), as
    long as the demand at the lower price and higher ad spend fits an
    [int]. *)
Theorem realizeDemand_int_follows_plan (m : Market) (ev : MarketEvent)
    (inventoryAvail : Z) (rng_z p1 p2 a1 a2 : R) :
  0 <= priceSensitivity m -> 0 <= adEffect m ->
  -1 <= priceShock ev -> -1 <= adShock ev ->
  p1 <= p2 -> 0 <= a1 <= a2 ->
  (realizeDemand m p1 a2 ev inventoryAvail rng_z <= INT_MAX)%Z ->
  (realizeDemand_int m p2 a1 ev inventoryAvail rng_z
   <= realizeDemand_int m p1 a2 ev inventoryAvail rng_z)%Z.
Proof.
  intros Hps Hae Hpm Ham Hp Ha Hfit.
  pose proof (realizeDemand_follows_plan m ev inventoryAvail rng_z p1 p2 a1 a2
                Hps Hae Hpm Ham Hp Ha) as Hle.
  rewrite !realizeDemand_int_fits by lia. exact Hle.
Qed.

Lemma realizeDemand_int_follows_plan_witness :
  0 <= priceSensitivity new_market /\ 0 <= adEffect new_market /\
  -1 <= priceShock macro_slump /\ -1 <= adShock macro_slump /\
  15 <= 20 /\ 0 <= 500 <= 1000 /\
  (realizeDemand new_market 15 1000 macro_slump 90 0 <= INT_MAX)%Z /\
  (realizeDemand_int new_market 20 500 macro_slump 90 0
   <= realizeDemand_int new_market 15 1000 macro_slump 90 0)%Z.
Proof.
  assert (H1 : 0 <= priceSensitivity new_market) by (cbn; lra).
  assert (H2 : 0 <= adEffect new_market) by (cbn; lra).
  assert (H3 : -1 <= priceShock macro_slump) by (cbn; lra).
  assert (H4 : -1 <= adShock macro_slump) by (cbn; lra).
  assert (H5 : 15 <= 20) by lra.
  assert (H6 : 0 <= 500 <= 1000) by lra.
  assert (Hfit : (realizeDemand new_market 15 1000 macro_slump 90 0 <= INT_MAX)%Z).
  { apply realizeDemand_fits_in_game.
    - unfold market_ok, new_market; cbn [baseDemand priceSensitivity adEffect
        demandDrift noiseStd]. repeat split; lra.
    - unfold new_market; cbn [baseDemand]. lra.
    - cbn [events In]. tauto.
    - lra.
    - lra.
    - lia.
    - unfold normal_distribution, new_market; cbn [noiseStd]. lra. }
  split; [exact H1 |]. split; [exact H2 |]. split; [exact H3 |].
  split; [exact H4 |]. split; [exact H5 |]. split; [exact H6 |].
  split; [exact Hfit |].
  exact (realizeDemand_int_follows_plan new_market macro_slump 90 0 15 20 500 1000
           H1 H2 H3 H4 H5 H6 Hfit).
Defined.

(** ** A game on the lines as typed *)

(** When every line converts, the game on the typed lines is the game of
    [main] on the converted input, and the loop is left. *)
Lemma play_parsed (fuel : nat) (week weeks : Z) (g : Game)
    (typed : Z -> TypedInput) (inputs : Z -> PlayerInput) (draws : Z -> Draws) :
  (forall k, parse (typed k) = Some (inputs k)) ->
  play fuel week weeks g typed draws
  = (weeks_loop fuel week weeks g inputs draws, LoopLeft).
Proof.
  intros Hparse. revert week g.
  induction fuel as [| fuel IH]; intros week g; cbn [play weeks_loop]; [reflexivity |].
  destruct (week <=? weeks)%Z; [| reflexivity].
  rewrite Hparse. cbv zeta.
  destruct (Rlt_dec _ _); [reflexivity |].
  rewrite IH. reflexivity.
Qed.

Lemma play_S (fuel : nat) (week weeks : Z) (g : Game)
    (typed : Z -> TypedInput) (draws : Z -> Draws) :
  play (S fuel) week weeks g typed draws
  = if (week <=? weeks)%Z then
      match parse (typed week) with
      | None => ([], Terminated)
      | Some inp =>
          let w := week_body week g inp (draws week) in
          if Rlt_dec (cash (co (wk_game w))) (-5000) then ([w], LoopLeft)
          else
            let rest := play fuel (week + 1)%Z weeks (wk_game w) typed draws in
            (w :: fst rest, snd rest)
      end
    else ([], LoopLeft).
Proof. reflexivity. Qed.

Lemma play_count (fuel : nat) (week weeks : Z) (g : Game)
    (typed : Z -> TypedInput) (draws : Z -> Draws) :
  (weeks - week + 1 <= Z.of_nat fuel)%Z ->
  play_ok week weeks g typed (play fuel week weeks g typed draws).
Proof.
  revert week g. induction fuel as [| fuel IH]; intros week g Hfuel.
  - cbn [play]. unfold play_ok. cbn [fst snd List.length].
    repeat split; try lia; try discriminate.
    intros pre w post H. destruct pre; discriminate H.
  - rewrite play_S.
    destruct (Z.leb_spec week weeks) as [Hle | Hgt].
    2:{ unfold play_ok. cbn [fst snd List.length].
        repeat split; try lia; try discriminate.
        intros pre w post H. destruct pre; discriminate H. }
    destruct (parse (typed week)) as [inp |] eqn:Hparse.
    2:{ unfold play_ok. cbn [fst snd List.length].
        repeat split; try lia; try discriminate.
        - rewrite Z.add_0_r. exact Hparse.
        - intros pre w post H. destruct pre; discriminate H. }
    cbv zeta.
    specialize (IH (week + 1)%Z
                   (wk_game (week_body week g inp (draws week))) ltac:(lia)).
    generalize dependent (week_body week g inp (draws week)). intros w IH.
    generalize dependent (play fuel (week + 1) weeks (wk_game w) typed draws).
    intros rest IH.
    destruct (Rlt_dec (cash (co (wk_game w))) (-5000)) as [Hlow | Hok];
      unfold play_ok in *; cbn [fst snd List.length map].
    + cbn [last]. repeat split; try lia; try discriminate.
      * intros _. exact Hlow.
      * intros pre w' post H Hpost. exfalso.
        destruct pre as [| x pre]; cbn in H.
        -- injection H as _ H. apply Hpost. symmetry. exact H.
        -- injection H as _ H. destruct pre; discriminate H.
    + destruct IH as (Hlen & Hleft & Hterm & Hmid).
      rewrite last_cons_default.
      split; [lia |]. split; [| split].
      * intros He. destruct (Hleft He) as [_ Hstop].
        split; [discriminate |]. intros Hshort. apply Hstop. lia.
      * intros He. destruct (Hterm He) as [Hshort Hnone].
        split; [lia |].
        replace (week + Z.of_nat (S (List.length (fst rest))))%Z
          with (week + 1 + Z.of_nat (List.length (fst rest)))%Z by lia.
        exact Hnone.
      * intros pre w' post H Hpost.
        destruct pre as [| x pre]; cbn in H; injection H as Hw H.
        -- subst w'. lra.
        -- exact (Hmid pre w' post H Hpost).
Qed.


(** X11. Unless a conversion throws, a game never ends with its first week:
    the starting cash of 20000 cannot fall below -5000 in one week, so when
    the loop is left at least two weeks were played. *)
Theorem main_typed_plays_two_weeks (typed : Z -> TypedInput) (draws : Z -> Draws) :
  snd (main_typed typed draws) = LoopLeft ->
  (2 <= List.length (fst (main_typed typed draws)))%nat.
Proof.
  unfold main_typed. rewrite (play_S 12 1 12).
  change (1 <=? 12)%Z with true. cbv iota.
  destruct (parse (typed 1%Z)) as [inp |]; [| discriminate].
  cbv zeta.
  pose proof (week_cash_floor 1 new_game inp (draws 1%Z)
                eq_refl eq_refl ltac:(cbn; lia)) as Hw.
  cbn [cash co new_game new_company] in Hw.
  generalize dependent (week_body 1 new_game inp (draws 1%Z)). intros w Hw.
  destruct (Rlt_dec (cash (co (wk_game w))) (-5000)) as [Hlow | _]; [lra |].
  pose proof (play_count 12 (1 + 1) 12 (wk_game w) typed draws ltac:(lia)) as Hok.
  generalize dependent (play 12 (1 + 1) 12 (wk_game w) typed draws).
  intros rest (_ & Hleft & _). cbn [fst snd]. intros He.
  destruct (Hleft He) as [Hne _]. specialize (Hne ltac:(lia)).
  destruct (fst rest); [congruence | cbn [List.length]; lia].
Qed.

Lemma main_typed_plays_two_weeks_witness :
  snd (main_typed (fun _ => TypedAccept) (fun _ => mkDraws 0 0.5 0 0)) = LoopLeft /\
  (2 <= List.length
          (fst (main_typed (fun _ => TypedAccept) (fun _ => mkDraws 0 0.5 0 0))))%nat.
Proof.
  assert (H : snd (main_typed (fun _ => TypedAccept) (fun _ => mkDraws 0 0.5 0 0))
              = LoopLeft).
  { unfold main_typed.
    rewrite (play_parsed 13 1 12 new_game (fun _ => TypedAccept) (fun _ => Accept));
      [reflexivity | intros k; reflexivity]. }
  split; [exact H |].
  exact (main_typed_plays_two_weeks (fun _ => TypedAccept)
           (fun _ => mkDraws 0 0.5 0 0) H).
Defined.

(** ** The search within the range of [int] *)

Lemma range_double_upper (n : nat) (x step v : R) :
  0 <= step -> In v (range_double x step n) -> v <= x + (INR n - 1) * step.
Proof.
  intros Hstep. revert x. induction n as [| n IH]; intros x; [intros [] |].
  rewrite S_INR. cbn [range_double In]. intros [<- | Hv].
  - pose proof (pos_INR n). nra.
  - specialize (IH _ Hv). lra.
Qed.

Lemma range_int_upper (n : nat) (i step v : Z) :
  (0 <= step)%Z -> In v (range_int i step n) ->
  (v <= i + (Z.of_nat n - 1) * step)%Z.
Proof.
  intros Hstep. revert i. induction n as [| n IH]; intros i; [intros [] |].
  cbn [range_int In]. intros [<- | Hv].
  - nia.
  - specialize (IH _ Hv). nia.
Qed.

Lemma grid_in_bounds (q : Plan) : In q grid -> in_grid_bounds q.
Proof.
  unfold grid. intros Hq.
  apply in_flat_map in Hq as (x & Hx & Hq).
  apply in_flat_map in Hq as (y & Hy & Hq).
  apply in_map_iff in Hq as (z & <- & Hz).
  pose proof (range_double_lower 32 9 1 x ltac:(lra) Hx) as Hp0.
  pose proof (range_double_upper 32 9 1 x ltac:(lra) Hx) as Hp1.
  pose proof (range_double_lower 17 0 500 y ltac:(lra) Hy) as Ha0.
  pose proof (range_double_upper 17 0 500 y ltac:(lra) Hy) as Ha1.
  pose proof (range_int_lower 13 0 10 z ltac:(lia) Hz) as Hq0.
  pose proof (range_int_upper 13 0 10 z ltac:(lia) Hz) as Hq1.
  assert (H32 : INR 32 = 32) by (cbn; lra).
  assert (H17 : INR 17 = 17) by (cbn; lra).
  rewrite H32 in Hp1. rewrite H17 in Ha1.
  unfold in_grid_bounds. cbn [price adSpend production].
  repeat split; first [lra | lia].
Qed.

Lemma product_le (w x W X : R) :
  - W <= w <= W -> - X <= x <= X -> w * x <= W * X.
Proof.
  intros Hw Hx.
  assert (H1 : 0 <= (W - w) * (X + x)) by (apply Rmult_le_pos; lra).
  assert (H2 : 0 <= (W + w) * (X - x)) by (apply Rmult_le_pos; lra).
  lra.
Qed.

(** With clamped weights, a proxy within a million of zero, event multipliers
    within 1 of zero and up to a million units available, the prediction at a
    grid point is below 6141160. *)
Lemma predict_bounded_on_grid (a : AIAdvisor) (bp am pm : R) (avail : Z) (q : Plan) :
  weights_in_range a -> -1000000 <= bp <= 1000000 ->
  -1 <= am <= 1 -> -1 <= pm <= 1 -> (0 <= avail <= 1000120)%Z ->
  in_grid_bounds q ->
  0 <= predict a (price q) (adSpend q) bp avail am pm <= 6141160.
Proof.
  intros (H0 & HP & HA & HB & HI) Hbp Ham Hpm [Hv0 Hv1] (Hprice & Had & _).
  split; [apply predict_nonneg |].
  unfold predict, log1p. cbv zeta. rewrite std_max_double.
  apply Rmax_lub; [lra |].
  pose proof (ln_1p_le (adSpend q) (proj1 Had)) as [Hl0 Hl1].
  apply IZR_le in Hv0, Hv1.
  assert (HxP : - 80 <= - price q * (1 + pm) <= 80).
  { assert (0 <= price q * (1 + pm)) by (apply Rmult_le_pos; lra).
    pose proof (product_le (price q) (1 + pm) 40 2 ltac:(lra) ltac:(lra)). lra. }
  assert (HxA : - 16000 <= ln (1 + adSpend q) * (1 + am) <= 16000).
  { assert (0 <= ln (1 + adSpend q) * (1 + am)) by (apply Rmult_le_pos; lra).
    pose proof (product_le (ln (1 + adSpend q)) (1 + am) 8000 2
                  ltac:(lra) ltac:(lra)). lra. }
  pose proof (product_le (wP a) _ 10 80 ltac:(lra) HxP).
  pose proof (product_le (wA a) _ 40 16000 ltac:(lra) HxA).
  pose proof (product_le (wB a) bp 5 1000000 ltac:(lra) ltac:(lra)).
  pose proof (product_le (wI a) (IZR avail) 0.5 1000120 ltac:(lra) ltac:(lra)).
  lra.
Qed.

(** X16. For an advisor with clamped weights, a stock of 0 to a million
    units, a unit cost and an overhead between 0 and [1e9], a proxy within a
    million of zero and event multipliers within 1 of zero, every number
    [suggest] converts to [int] or adds as [int] fits an [int]; no grid point
    has a higher predicted profit than the plan it returns, and that
    predicted profit is never below minus the overhead, since selling nothing
    at no cost is on the grid. *)
Theorem suggest_profit_floor_in_range (a : AIAdvisor) (c : Company) (bp am pm : R) :
  weights_in_range a -> (0 <= inventory c <= 1000000)%Z ->
  0 <= unitCost c <= 1e9 -> 0 <= fixedCost c <= 1e9 ->
  -1000000 <= bp <= 1000000 -> -1 <= am <= 1 -> -1 <= pm <= 1 ->
  (forall q, In q grid ->
     let rounded := round_int (predict a (price q) (adSpend q) bp
                                       (inventory c + production q) am pm) in
     (0 <= inventory c + production q <= INT_MAX)%Z /\
     (0 <= rounded <= INT_MAX)%Z /\
     int_of_double (IZR rounded) = rounded) /\
  (forall q, In q grid ->
     predicted_profit a c bp am pm q
     <= predicted_profit a c bp am pm (suggest a c bp am pm)) /\
  - fixedCost c <= predicted_profit a c bp am pm (suggest a c bp am pm).
Proof.
  intros Hw Hinv Huc Hfc Hbp Ham Hpm.
  split.
  { intros q Hq. pose proof (grid_in_bounds q Hq) as Hb.
    destruct Hb as (Hb1 & Hb2 & Hb3).
    assert (Havail : (0 <= inventory c + production q <= 1000120)%Z) by lia.
    cbv zeta. split; [unfold INT_MAX; lia |].
    pose proof (predict_bounded_on_grid a bp am pm _ q Hw Hbp Ham Hpm Havail
                  (conj Hb1 (conj Hb2 Hb3))) as [Hp0 Hp1].
    assert (Hr : (0 <= round_int (predict a (price q) (adSpend q) bp
                                          (inventory c + production q) am pm)
                  <= INT_MAX)%Z).
    { split; [apply round_int_nonneg; exact Hp0 |].
      unfold round_int. destruct (Rle_dec 0 _) as [_ | Hn]; [| lra].
      match goal with
      | |- (Zfloor ?x <= _)%Z => pose proof (Zfloor_bound x) as [Hf _]
      end.
      apply le_IZR. unfold INT_MAX. lra. }
    split; [exact Hr |].
    apply int_of_double_exact. unfold INT_MIN. lia. }
  assert (Hfixed : fixedCost c < 1e18) by lra.
  destruct (suggest_first_best_in_game a c bp am pm (proj1 Hinv) Hfixed)
    as (pre & post & Hg & Hpre & Hpost).
  assert (Hmax : forall q, In q grid ->
            predicted_profit a c bp am pm q
            <= predicted_profit a c bp am pm (suggest a c bp am pm)).
  { intros q Hq. rewrite Hg in Hq.
    apply in_app_or in Hq as [Hq | [<- | Hq]];
      [left; apply Hpre; exact Hq | right; reflexivity | apply Hpost; exact Hq]. }
  split; [exact Hmax |].
  apply Rle_trans with (2 := Hmax _ first_point_in_grid).
  apply first_point_profit. exact (proj1 Hinv).
Qed.

Lemma suggest_profit_floor_in_range_witness :
  weights_in_range new_advisor /\ (0 <= inventory new_company <= 1000000)%Z /\
  0 <= unitCost new_company <= 1e9 /\ 0 <= fixedCost new_company <= 1e9 /\
  -1000000 <= 50 <= 1000000 /\ -1 <= 0 <= 1 /\
  - fixedCost new_company
  <= predicted_profit new_advisor new_company 50 0 0
       (suggest new_advisor new_company 50 0 0).
Proof.
  assert (Hw : weights_in_range new_advisor).
  { unfold weights_in_range, new_advisor; cbn [w0 wP wA wB wI]. repeat split; lra. }
  assert (Hinv : (0 <= inventory new_company <= 1000000)%Z)
    by (unfold new_company; cbn [inventory]; lia).
  assert (Huc : 0 <= unitCost new_company <= 1e9)
    by (unfold new_company; cbn [unitCost]; lra).
  assert (Hfc : 0 <= fixedCost new_company <= 1e9)
    by (unfold new_company; cbn [fixedCost]; lra).
  assert (Hbp : -1000000 <= 50 <= 1000000) by lra.
  assert (Hm : -1 <= 0 <= 1) by lra.
  split; [exact Hw |]. split; [exact Hinv |]. split; [exact Huc |].
  split; [exact Hfc |]. split; [exact Hbp |]. split; [exact Hm |].
  exact (proj2 (proj2
    (suggest_profit_floor_in_range new_advisor new_company 50 0 0
       Hw Hinv Huc Hfc Hbp Hm Hm))).
Defined.
